(** * aiinvoiceagent: the file intake and processing pipeline

    A shallow embedding of [src/utils/helpers.py], of the response parser and
    the single-file processor of [src/services/invoice_processor.py] and of
    the queueing of [src/services/file_monitor.py], with the properties the
    specification states about them.

    Python [str] values are modelled as [string]; a character is a code point
    below 256.  Python [int] is [Z] (or [nat] for counters that only grow from
    a literal), a [dict] keyed by strings is a [gmap string _], a set of
    existing paths is a [gset]. *)

From Stdlib Require Import ZArith QArith Ascii String List Bool Lia.
From stdpp Require Import base decidable option list gmap strings pretty.

Local Open Scope Z_scope.
Local Open Scope stdpp_scope.

(* ===================================================================== *)
(** ** Characters and strings, as Python's [str] methods see them *)
(* ===================================================================== *)

Definition code (c : ascii) : N := N_of_ascii c.

Definition in_range (lo hi : N) (c : ascii) : bool :=
  ((lo <=? code c) && (code c <=? hi))%N.

Definition is_upper_ascii (c : ascii) : bool := in_range 65 90 c.
Definition is_lower_ascii (c : ascii) : bool := in_range 97 122 c.
Definition is_digit (c : ascii) : bool := in_range 48 57 c.

(** [str.lower()] on one code point below 256: the ASCII capitals and the
    Latin-1 capitals U+00C0..U+00DE (U+00D7, the multiplication sign, is not a
    letter) move up by 32. *)
Definition lower_char (c : ascii) : ascii :=
  if is_upper_ascii c || (in_range 192 222 c && negb (code c =? 215)%N)
  then ascii_of_N (code c + 32) else c.

(** [str.upper()] restricted to the ASCII letters, enough for the three-letter
    currency codes it is applied to. *)
Definition upper_char (c : ascii) : ascii :=
  if is_lower_ascii c then ascii_of_N (code c - 32) else c.

Fixpoint str_map (f : ascii -> ascii) (s : string) : string :=
  match s with
  | EmptyString => EmptyString
  | String c s' => String (f c) (str_map f s')
  end.

Definition str_lower : string -> string := str_map lower_char.
Definition str_upper : string -> string := str_map upper_char.

(** [str.isspace()] for a code point below 256; it is also the class [\s] of
    [re] on [str] patterns. *)
Definition is_space (c : ascii) : bool :=
  in_range 9 13 c || in_range 28 32 c || (code c =? 133)%N || (code c =? 160)%N.

Definition len (s : string) : Z := Z.of_nat (String.length s).

Fixpoint str_take (n : nat) (s : string) : string :=
  match n, s with
  | S n', String c s' => String c (str_take n' s')
  | _, _ => EmptyString
  end.

Fixpoint str_drop (n : nat) (s : string) : string :=
  match n, s with
  | S n', String _ s' => str_drop n' s'
  | _, _ => s
  end.

(** The slice [s[:k]]: a negative bound counts from the end, and both ends are
    clamped to the string. *)
Definition slice_to (k : Z) (s : string) : string :=
  let k' := if k <? 0 then Z.max 0 (k + len s) else Z.min k (len s) in
  str_take (Z.to_nat k') s.

(** The slice [s[k:]] for [0 <= k]. *)
Definition slice_from (k : nat) (s : string) : string := str_drop k s.

(** [s.lstrip(c)] for a one-character argument. *)
Fixpoint lstrip_char (c : ascii) (s : string) : string :=
  match s with
  | String a s' => if Ascii.eqb a c then lstrip_char c s' else s
  | EmptyString => EmptyString
  end.

Fixpoint lstrip (s : string) : string :=
  match s with
  | String a s' => if is_space a then lstrip s' else s
  | EmptyString => EmptyString
  end.

Definition rstrip (s : string) : string := String.rev (lstrip (String.rev s)).

(** [s.strip()] *)
Definition strip (s : string) : string := rstrip (lstrip s).

(** [s.replace(c, '')] for a one-character [c]. *)
Fixpoint remove_char (c : ascii) (s : string) : string :=
  match s with
  | String a s' =>
      if Ascii.eqb a c then remove_char c s' else String a (remove_char c s')
  | EmptyString => EmptyString
  end.

(** [s.rfind(c)]: the index of the last occurrence; [None] stands for -1. *)
Fixpoint rfind (c : ascii) (s : string) : option nat :=
  match s with
  | EmptyString => None
  | String a s' =>
      match rfind c s' with
      | Some i => Some (S i)
      | None => if Ascii.eqb a c then Some 0%nat else None
      end
  end.

(** [s.split(c)]: never empty, the pieces hold no [c]. *)
Fixpoint split_on (c : ascii) (s : string) : list string :=
  match s with
  | EmptyString => [EmptyString]
  | String a s' =>
      if Ascii.eqb a c then EmptyString :: split_on c s'
      else match split_on c s' with
           | h :: t => String a h :: t
           | [] => [String a EmptyString]
           end
  end.

(* ===================================================================== *)
(** ** [pathlib]: pure POSIX paths *)
(* ===================================================================== *)

(** A parsed path: whether it is anchored at the root, and its components.
    Parsing drops empty components and ["."], so neither occurs in [parts]. *)
Record Path := mkPath { absolute : bool; parts : list string }.

Global Instance Path_eq_dec : EqDecision Path.
Proof. solve_decision. Defined.

Global Instance Path_countable : Countable Path.
Proof.
  apply (inj_countable' (fun p => (absolute p, parts p))
                        (fun t => mkPath (fst t) (snd t))).
  by intros [].
Defined.

Definition keeps_part (s : string) : bool :=
  negb (String.eqb s "") && negb (String.eqb s ".").

(** [Path(s)] *)
Definition Path_of (s : string) : Path :=
  {| absolute := match s with String "/" _ => true | _ => false end;
     parts := filter (fun p => keeps_part p = true) (split_on "/" s) |}.

(** [p.name]: the last component, empty for the root and for [Path('.')]. *)
Definition path_name (p : Path) : string := List.last (parts p) "".

(** [p.parent] *)
Definition path_parent (p : Path) : Path :=
  {| absolute := absolute p; parts := removelast (parts p) |}.

(** [p / name] for a [name] that is one component. *)
Definition path_join (p : Path) (name : string) : Path :=
  {| absolute := absolute p; parts := parts p ++ [name] |}.

(** The index at which the suffix of a name starts: the last dot, unless it
    is the first or the last character of the name (CPython 3.8 to 3.13:
    [i = name.rfind('.')] and [0 < i < len(name) - 1]). *)
Definition suffix_index (name : string) : option nat :=
  match rfind "." name with
  | Some i =>
      if (0 <? i)%nat && (S i <? String.length name)%nat then Some i else None
  | None => None
  end.

(** [PurePath.suffix] and [PurePath.stem], on the name. *)
Definition name_suffix (name : string) : string :=
  match suffix_index name with
  | Some i => slice_from i name
  | None => ""
  end.

Definition name_stem (name : string) : string :=
  match suffix_index name with
  | Some i => str_take i name
  | None => name
  end.

Definition path_suffix (p : Path) : string := name_suffix (path_name p).
Definition path_stem (p : Path) : string := name_stem (path_name p).

(* ===================================================================== *)
(** ** [src/utils/helpers.py] *)
(* ===================================================================== *)

(** [get_file_extension]: [Path(filename).suffix.lower().lstrip('.')] *)
Definition get_file_extension (filename : string) : string :=
  lstrip_char "." (str_lower (path_suffix (Path_of filename))).

(** [is_supported_format]: [extension in supported_formats], a list. *)
Definition is_supported_format (filename : string)
    (supported_formats : list string) : bool :=
  bool_decide (get_file_extension filename ∈ supported_formats).

(** [create_timestamped_filename]: [timestamp = suffix or
    generate_timestamp_suffix()], so an absent or empty [suffix] is replaced
    by [generated], the text [generate_timestamp_suffix()] returns; the name
    is [f"{path.stem}_{timestamp}{path.suffix}"]. *)
Definition create_timestamped_filename (original_filename : string)
    (suffix : option string) (generated : string) : string :=
  let path := Path_of original_filename in
  let timestamp :=
    match suffix with
    | Some t => if String.eqb t "" then generated else t
    | None => generated
    end in
  path_stem path +:+ "_" +:+ timestamp +:+ path_suffix path.

(** The name tried at a given value of [counter] in [ensure_unique_filename]:
    [original_path.parent / f"{stem}_{counter}{suffix}"]. *)
Definition numbered (original_path : Path) (counter : nat) : Path :=
  path_join (path_parent original_path)
    (path_stem original_path +:+ "_" +:+ pretty counter
       +:+ path_suffix original_path).

(** The [while target_path.exists()] loop of [ensure_unique_filename], over
    the set [fs] of the paths that exist.  [fuel] bounds the iterations; [None]
    is a loop that has not finished within [fuel] rounds. *)
Fixpoint unique_loop (fs : gset Path) (original_path : Path)
    (fuel counter : nat) (target_path : Path) : option Path :=
  if decide (target_path ∈ fs) then
    match fuel with
    | O => None
    | S fuel' =>
        unique_loop fs original_path fuel' (S counter)
          (numbered original_path counter)
    end
  else Some target_path.

Definition ensure_unique_filename_fuel (fuel : nat) (fs : gset Path)
    (target_path : Path) : option Path :=
  if decide (target_path ∈ fs)
  then unique_loop fs target_path fuel 1 target_path
  else Some target_path.

(** [ensure_unique_filename]: a finite file system cannot hold all of the
    [size fs + 1] first candidates, so that many rounds always finish
    ([ensure_unique_filename_total] below); the default is never used. *)
Definition ensure_unique_filename (fs : gset Path) (target_path : Path) : Path :=
  default target_path
    (ensure_unique_filename_fuel (S (size fs)) fs target_path).

(** [truncate_text] *)
Definition truncate_text (text : string) (max_length : Z) : string :=
  if len text <=? max_length then text
  else slice_to (max_length - 3) text +:+ "...".


(* ===================================================================== *)
(** ** MD5 ([hashlib.md5]), on 32-bit words held in [N] *)
(* ===================================================================== *)

Module MD5.
Local Open Scope N_scope.

Definition w32 (x : N) : N := x mod 2 ^ 32.
Definition add32 (x y : N) : N := w32 (x + y).
Definition not32 (x : N) : N := N.lxor x 0xffffffff.
Definition rotl32 (x c : N) : N :=
  N.lor (w32 (N.shiftl x c)) (N.shiftr x (32 - c)).

(** The per-round left rotations. *)
Definition shifts : list N :=
  [7; 12; 17; 22; 7; 12; 17; 22; 7; 12; 17; 22; 7; 12; 17; 22;
   5; 9; 14; 20; 5; 9; 14; 20; 5; 9; 14; 20; 5; 9; 14; 20;
   4; 11; 16; 23; 4; 11; 16; 23; 4; 11; 16; 23; 4; 11; 16; 23;
   6; 10; 15; 21; 6; 10; 15; 21; 6; 10; 15; 21; 6; 10; 15; 21].

(** [floor (2^32 * abs (sin (i + 1)))] for [i] from 0 to 63. *)
Definition sines : list N :=
  [0xd76aa478; 0xe8c7b756; 0x242070db; 0xc1bdceee;
   0xf57c0faf; 0x4787c62a; 0xa8304613; 0xfd469501;
   0x698098d8; 0x8b44f7af; 0xffff5bb1; 0x895cd7be;
   0x6b901122; 0xfd987193; 0xa679438e; 0x49b40821;
   0xf61e2562; 0xc040b340; 0x265e5a51; 0xe9b6c7aa;
   0xd62f105d; 0x02441453; 0xd8a1e681; 0xe7d3fbc8;
   0x21e1cde6; 0xc33707d6; 0xf4d50d87; 0x455a14ed;
   0xa9e3e905; 0xfcefa3f8; 0x676f02d9; 0x8d2a4c8a;
   0xfffa3942; 0x8771f681; 0x6d9d6122; 0xfde5380c;
   0xa4beea44; 0x4bdecfa9; 0xf6bb4b60; 0xbebfbc70;
   0x289b7ec6; 0xeaa127fa; 0xd4ef3085; 0x04881d05;
   0xd9d4d039; 0xe6db99e5; 0x1fa27cf8; 0xc4ac5665;
   0xf4292244; 0x432aff97; 0xab9423a7; 0xfc93a039;
   0x655b59c3; 0x8f0ccc92; 0xffeff47d; 0x85845dd1;
   0x6fa87e4f; 0xfe2ce6e0; 0xa3014314; 0x4e0811a1;
   0xf7537e82; 0xbd3af235; 0x2ad7d2bb; 0xeb86d391].

Record state := mkState { sa : N; sb : N; sc : N; sd : N }.

Definition init : state :=
  {| sa := 0x67452301; sb := 0xefcdab89; sc := 0x98badcfe; sd := 0x10325476 |}.

(** The message is padded with the byte 0x80, zeros up to 56 modulo 64, and
    its length in bits as a 64-bit little-endian number. *)
Fixpoint le_bytes (n : nat) (x : N) : list N :=
  match n with
  | O => []
  | S n' => x mod 256 :: le_bytes n' (x / 256)
  end.

Definition pad (msg : list N) : list N :=
  let l := N.of_nat (length msg) in
  let zeros := (64 + 55 - l mod 64) mod 64 in
  msg ++ [0x80] ++ repeat 0 (N.to_nat zeros) ++ le_bytes 8 ((8 * l) mod 2 ^ 64).

Definition word_of (bs : list N) : N :=
  fold_right (fun b acc => b + 256 * acc) 0 bs.

Fixpoint words (n : nat) (bs : list N) : list N :=
  match n with
  | O => []
  | S n' => word_of (take 4 bs) :: words n' (drop 4 bs)
  end.

(** One of the 64 operations on the chunk [m] of sixteen words. *)
Definition round (m : list N) (st : state) (i : N) : state :=
  let '(mkState a b c d) := st in
  let '(f, g) :=
    if i <? 16 then (N.lor (N.land b c) (N.land (not32 b) d), i)
    else if i <? 32 then
      (N.lor (N.land d b) (N.land (not32 d) c), (5 * i + 1) mod 16)
    else if i <? 48 then (N.lxor b (N.lxor c d), (3 * i + 5) mod 16)
    else (N.lxor c (N.lor b (not32 d)), (7 * i) mod 16) in
  let f' := add32 (add32 (add32 f a) (nth (N.to_nat i) sines 0))
                  (nth (N.to_nat g) m 0) in
  {| sa := d; sd := c; sc := b;
     sb := add32 b (rotl32 f' (nth (N.to_nat i) shifts 0)) |}.

Definition chunk (st : state) (bs : list N) : state :=
  let m := words 16 bs in
  let st' := fold_left (round m) (map N.of_nat (seq 0 64)) st in
  {| sa := add32 (sa st) (sa st'); sb := add32 (sb st) (sb st');
     sc := add32 (sc st) (sc st'); sd := add32 (sd st) (sd st') |}.

Fixpoint chunks (n : nat) (st : state) (bs : list N) : state :=
  match n with
  | O => st
  | S n' => chunks n' (chunk st (take 64 bs)) (drop 64 bs)
  end.

Definition digest (msg : list N) : list N :=
  let p := pad msg in
  let st := chunks (length p / 64) init p in
  le_bytes 4 (sa st) ++ le_bytes 4 (sb st) ++ le_bytes 4 (sc st)
    ++ le_bytes 4 (sd st).

Definition hex_digit (x : N) : ascii :=
  ascii_of_N (if x <? 10 then 48 + x else 87 + x).

Fixpoint hex (bs : list N) : string :=
  match bs with
  | [] => EmptyString
  | b :: bs' => String (hex_digit (b / 16)) (String (hex_digit (b mod 16)) (hex bs'))
  end.

(** [hashlib.md5(bytes).hexdigest()] *)
Definition hexdigest (msg : list N) : string := hex (digest msg).
End MD5.

(** [s.encode()]: UTF-8, one byte below 128 and two bytes from 128 to 255. *)
Fixpoint utf8 (s : string) : list N :=
  match s with
  | EmptyString => []
  | String c s' =>
      let n := code c in
      if (n <? 128)%N then n :: utf8 s'
      else (192 + n / 64)%N :: (128 + n mod 64)%N :: utf8 s'
  end.

(** [generate_file_id].  The two readings of the environment it makes,
    [datetime.utcnow().isoformat()] and [uuid.uuid4()], are arguments. *)
Definition generate_file_id (filename timestamp uuid4 : string) : string :=
  let content := filename +:+ "_" +:+ timestamp +:+ "_" +:+ uuid4 in
  slice_to 16 (MD5.hexdigest (utf8 content)).


(* ===================================================================== *)
(** ** Python values: floats and the dynamically typed values of a [dict] *)
(* ===================================================================== *)

(** A binary64 float: a finite one is the rational it denotes, kept reduced
    ([Qred]) so that equal floats are equal terms. *)
Inductive pyfloat : Type :=
| Finite (q : Q)
| Infinity
| NegInfinity
| NaN.

(** [x != 0.0] on a float *)
Definition float_nonzero (x : pyfloat) : bool :=
  match x with
  | Finite q => negb (Qeq_bool q 0)
  | _ => true
  end.

(** Rounding a non-negative rational to the nearest integer, ties to even. *)
Definition round_half_even (q : Q) : Z :=
  let n := Qnum q in
  let d := Z.pos (Qden q) in
  let f := n / d in
  match (2 * (n mod d) ?= d) with
  | Lt => f
  | Gt => f + 1
  | Eq => if Z.even f then f else f + 1
  end.

(** The binary64 nearest to a non-negative rational (round to nearest, ties
    to even): 53 significant bits, the exponent of the last place not below
    -1074, and overflow to infinity from 2^1024 on. *)
Definition binary64_of (q : Q) : pyfloat :=
  if Qnum q =? 0 then Finite 0
  else
    let e0 := Z.log2 (Qnum q) - Z.log2 (Z.pos (Qden q)) in
    let e := if Qle_bool (Qpower 2 e0) q then e0 else e0 - 1 in
    let ulp := Z.max (e - 52) (-1074) in
    let m := round_half_even (q / Qpower 2 ulp) in
    let v := Qred (inject_Z m * Qpower 2 ulp) in
    if Qle_bool (Qpower 2 1024) v then Infinity else Finite v.

Fixpoint all_digits (s : string) : bool :=
  match s with
  | EmptyString => true
  | String c s' => is_digit c && all_digits s'
  end.

Fixpoint digits_value (acc : Z) (s : string) : Z :=
  match s with
  | EmptyString => acc
  | String c s' => digits_value (10 * acc + (Z.of_N (code c) - 48)) s'
  end.

(** [float(s)] on the strings that reach it in this program, which hold only
    digits and at most one dot: [None] is [ValueError], raised when there is
    no digit at all. *)
Definition float_of_str (s : string) : option pyfloat :=
  match split_on "." s with
  | [i] =>
      if all_digits i && negb (String.eqb i "")
      then Some (binary64_of (inject_Z (digits_value 0 i))) else None
  | [i; f] =>
      if all_digits i && all_digits f && negb (String.eqb (i +:+ f) "")
      then Some (binary64_of
                   (Qred (Qmake (digits_value 0 (i +:+ f))
                                (Z.to_pos (10 ^ Z.of_nat (String.length f))))))
      else None
  | _ => None
  end.


(** A value held in a [dict] or decoded from JSON. *)
#[warnings="-register-all"] Inductive pyval : Type :=
| VNone
| VBool (b : bool)
| VInt (n : Z)
| VFloat (x : pyfloat)
| VStr (s : string)
| VList (l : list pyval)
| VDict (d : list (string * pyval)).

(** [v != 'UNKNOWN'] and [v != 0.0], as Python compares values of any type:
    values of unrelated types differ, and a number equals [0.0] when it is
    zero ([False == 0.0] holds as well). *)
Definition ne_unknown (v : pyval) : bool :=
  match v with
  | VStr s => negb (String.eqb s "UNKNOWN")
  | _ => true
  end.

Definition ne_zero (v : pyval) : bool :=
  match v with
  | VFloat x => float_nonzero x
  | VInt n => negb (n =? 0)
  | VBool b => b
  | _ => true
  end.

(* ===================================================================== *)
(** ** Regular expressions ([re.search]) *)
(* ===================================================================== *)

(** The fragment of [re] the patterns of the parser are written in: character
    classes, concatenation, counted repetition (greedy or lazy) and one
    capturing group. *)
Inductive regex : Type :=
| Eps
| Chr (p : ascii -> bool)
| Cat (r1 r2 : regex)
| Rep (lo : nat) (hi : option nat) (greedy : bool) (r : regex)
| Grp (r : regex).

Section Matcher.
Context {R : Type}.

(** Backtracking matcher in continuation-passing style: [rmatch r s g k]
    matches [r] on a prefix of [s] and hands the rest of the input and the
    text of the group to [k]; alternatives are tried in the order of [re]
    (a greedy repetition first tries one more round, a lazy one first tries
    to stop) and the first success wins.  A round of a repetition has to
    consume input: every repeated expression of the source patterns does. *)
Fixpoint rmatch (r : regex) (s : string) (g : option string)
    (k : string -> option string -> option R) {struct r} : option R :=
  match r with
  | Eps => k s g
  | Chr p =>
      match s with
      | String c s' => if p c then k s' g else None
      | EmptyString => None
      end
  | Cat r1 r2 => rmatch r1 s g (fun s' g' => rmatch r2 s' g' k)
  | Grp r1 =>
      rmatch r1 s g
        (fun s' _ =>
           k s' (Some (str_take (String.length s - String.length s') s)))
  | Rep lo hi greedy r1 =>
      (fix loop (fuel lo : nat) (hi : option nat) (s : string)
           (g : option string) {struct fuel} : option R :=
         match fuel with
         | O => None
         | S fuel' =>
             let again (_ : unit) :=
               rmatch r1 s g
                 (fun s' g' =>
                    if (String.length s' <? String.length s)%nat
                    then loop fuel' (Nat.pred lo) (Nat.pred <$> hi) s' g'
                    else None) in
             match lo, hi with
             | S _, _ => again tt
             | O, Some O => k s g
             | O, _ =>
                 if greedy then
                   match again tt with
                   | Some x => Some x
                   | None => k s g
                   end
                 else
                   match k s g with
                   | Some x => Some x
                   | None => again tt
                   end
             end
         end) (S (String.length s)) lo hi s g
  end.
End Matcher.

(** A match object: [group(0)] and [group(1)]. *)
Record rematch := mkMatch { group0 : string; group1 : option string }.

Definition match_at (r : regex) (s : string) : option rematch :=
  rmatch r s None
    (fun s' g =>
       Some {| group0 := str_take (String.length s - String.length s') s;
               group1 := g |}).

(** [re.search]: the match at the leftmost position that has one. *)
Fixpoint re_search (r : regex) (s : string) : option rematch :=
  match match_at r s with
  | Some m => Some m
  | None =>
      match s with
      | String _ s' => re_search r s'
      | EmptyString => None
      end
  end.

(** Pattern syntax. *)
Definition star (r : regex) : regex := Rep 0 None true r.
Definition plus (r : regex) : regex := Rep 1 None true r.
Definition opt (r : regex) : regex := Rep 0 (Some 1%nat) true r.
Definition times (lo hi : nat) (r : regex) : regex := Rep lo (Some hi) true r.
Definition lazy_star (r : regex) : regex := Rep 0 None false r.

Fixpoint cat_all (rs : list regex) : regex :=
  match rs with
  | [] => Eps
  | [r] => r
  | r :: rs' => Cat r (cat_all rs')
  end.

(** A literal character, and a literal under [re.IGNORECASE]. *)
Definition chr (c : ascii) : regex := Chr (Ascii.eqb c).
Definition chr_i (c : ascii) : regex :=
  Chr (fun x => Ascii.eqb (lower_char x) (lower_char c)).

Fixpoint lit (s : string) : regex :=
  match s with
  | EmptyString => Eps
  | String c EmptyString => chr c
  | String c s' => Cat (chr c) (lit s')
  end.

Fixpoint lit_i (s : string) : regex :=
  match s with
  | EmptyString => Eps
  | String c EmptyString => chr_i c
  | String c s' => Cat (chr_i c) (lit_i s')
  end.

Definition LF : ascii := "010".
Definition CR : ascii := "013".

Definition is_letter (c : ascii) : bool := is_upper_ascii c || is_lower_ascii c.

(** [[:\s]] *)
Definition colon_space : regex := Chr (fun c => Ascii.eqb c ":" || is_space c).
(** [[^\n\r]] *)
Definition not_newline : regex :=
  Chr (fun c => negb (Ascii.eqb c LF || Ascii.eqb c CR)).
(** [[0-9]], [[0-9,]], [[-/]] *)
Definition digit : regex := Chr is_digit.
Definition digit_comma : regex := Chr (fun c => is_digit c || Ascii.eqb c ",").
Definition dash_slash : regex := Chr (fun c => Ascii.eqb c "-" || Ascii.eqb c "/").
(** [[A-Za-z]]; under [re.IGNORECASE] it is also what [[A-Z]] matches. *)
Definition letter : regex := Chr is_letter.
(** [[0-9A-Za-z\-]] *)
Definition alnum_dash : regex :=
  Chr (fun c => is_digit c || is_letter c || Ascii.eqb c "-").
(** [[^{}]], and [.] under [re.DOTALL] *)
Definition not_brace : regex :=
  Chr (fun c => negb (Ascii.eqb c "{" || Ascii.eqb c "}")).
Definition any_char : regex := Chr (fun _ => true).

(** [label[:\s]*(group)], under [re.IGNORECASE] *)
Definition labelled (label : string) (group : regex) : regex :=
  cat_all [lit_i label; star colon_space; Grp group].

(** The amount pattern [[0-9,]+\.?[0-9]*] *)
Definition amount : regex := cat_all [plus digit_comma; opt (chr "."); star digit].

(** The pattern lists of [_extract_fallback_data]. *)
Definition invoice_patterns : list regex :=
  [ (* Invoice Number[:\s]*([^\n\r]+) *)
    labelled "Invoice Number" (plus not_newline);
    (* Invoice[:\s]*#?([0-9A-Za-z\-]+) *)
    cat_all [lit_i "Invoice"; star colon_space; opt (chr "#"); Grp (plus alnum_dash)];
    (* Invoice ID[:\s]*([^\n\r]+) *)
    labelled "Invoice ID" (plus not_newline) ].

Definition date_patterns : list regex :=
  [ (* Invoice Date[:\s]*([^\n\r]+) *)
    labelled "Invoice Date" (plus not_newline);
    (* Date[:\s]*([0-9]{1,2}[-/][0-9]{1,2}[-/][0-9]{2,4}) *)
    labelled "Date"
      (cat_all [times 1 2 digit; dash_slash; times 1 2 digit; dash_slash;
                times 2 4 digit]);
    (* Date[:\s]*([0-9]{1,2}-[A-Za-z]{3}-[0-9]{2,4}) *)
    labelled "Date"
      (cat_all [times 1 2 digit; chr "-"; times 3 3 letter; chr "-";
                times 2 4 digit]) ].

Definition vendor_patterns : list regex :=
  [ (* Vendor Name[:\s]*([^\n\r]+) *)
    labelled "Vendor Name" (plus not_newline);
    (* Company[:\s]*([^\n\r]+) *)
    labelled "Company" (plus not_newline);
    (* From[:\s]*([^\n\r]+) *)
    labelled "From" (plus not_newline) ].

Definition total_patterns : list regex :=
  [ (* Total Amount[:\s]*(amount) *)
    labelled "Total Amount" amount;
    (* Total[:\s]*(amount) *)
    labelled "Total" amount;
    (* Amount[:\s]*(amount) *)
    labelled "Amount" amount ].

(** [Currency[:\s]*([A-Z]{3})], under [re.IGNORECASE] *)
Definition currency_pattern : regex := labelled "Currency" (times 3 3 letter).

(** [```json\s*\n(.*?)\n```], under [re.DOTALL] *)
Definition fenced_json_pattern : regex :=
  cat_all [lit "```json"; star (Chr is_space); chr LF; Grp (lazy_star any_char);
           chr LF; lit "```"].

(** The object pattern, written here with spaces between its parts:
    [\{ [^{}]* (?: \{ [^{}]* \} [^{}]* )* \}], under [re.DOTALL] *)
Definition json_object_pattern : regex :=
  cat_all [chr "{"; star not_brace;
           star (cat_all [chr "{"; star not_brace; chr "}"; star not_brace]);
           chr "}"].

(** [match.group(1)] *)
Definition group_1 (m : rematch) : string := default "" (group1 m).

(** [for pattern in patterns: match = re.search(...); if match: ...; break]:
    the stripped group of the first pattern that matches. *)
Fixpoint first_group (patterns : list regex) (s : string) : option string :=
  match patterns with
  | [] => None
  | p :: ps =>
      match re_search p s with
      | Some m => Some (strip (group_1 m))
      | None => first_group ps s
      end
  end.

(** The loop over [total_patterns]: a match whose text is not a number
    ([ValueError]) moves on to the next pattern. *)
Fixpoint first_amount (patterns : list regex) (s : string) : option pyfloat :=
  match patterns with
  | [] => None
  | p :: ps =>
      match re_search p s with
      | Some m =>
          match float_of_str (remove_char "," (group_1 m)) with
          | Some x => Some x
          | None => first_amount ps s
          end
      | None => first_amount ps s
      end
  end.

(** [data[key] = v] when there is a value, and [data.setdefault(key, v)]. *)
Definition set_if {A} (key : string) (f : A -> pyval) (o : option A)
    (data : gmap string pyval) : gmap string pyval :=
  match o with
  | Some x => <[key := f x]> data
  | None => data
  end.

Definition setdefault (key : string) (v : pyval) (data : gmap string pyval)
    : gmap string pyval :=
  match data !! key with
  | Some _ => data
  | None => <[key := v]> data
  end.

(** [data.values()], and [any(v != 'UNKNOWN' and v != 0.0 for v in ...)]. *)
Definition values (data : gmap string pyval) : list pyval :=
  (map_to_list data).*2.

Definition any_non_sentinel (data : gmap string pyval) : bool :=
  existsb (fun v => ne_unknown v && ne_zero v) (values data).

(** The dictionary [_extract_fallback_data] has built when it reaches its
    [return]. *)
Definition fallback_dict (response_content : string) : gmap string pyval :=
  let data : gmap string pyval := ∅ in
  let data := set_if "invoice_number" VStr
                (first_group invoice_patterns response_content) data in
  let data := set_if "date" VStr
                (first_group date_patterns response_content) data in
  let data := set_if "vendor_name" VStr
                (first_group vendor_patterns response_content) data in
  let data := set_if "total_amount" VFloat
                (first_amount total_patterns response_content) data in
  let data := set_if "currency" VStr
                (str_upper ∘ group_1 <$> re_search currency_pattern response_content)
                data in
  let data := setdefault "invoice_number" (VStr "UNKNOWN") data in
  let data := setdefault "date" (VStr "UNKNOWN") data in
  let data := setdefault "vendor_name" (VStr "UNKNOWN") data in
  let data := setdefault "total_amount" (VFloat (Finite 0)) data in
  let data := setdefault "currency" (VStr "USD") data in
  let data := setdefault "line_items" (VList []) data in
  data.

(** [_extract_fallback_data]: [None] is Python's [None]. *)
Definition _extract_fallback_data (response_content : string)
    : option (gmap string pyval) :=
  let data := fallback_dict response_content in
  if any_non_sentinel data then Some data else None.


(* ===================================================================== *)
(** ** [src/models/__init__.py] and [config/settings.py] *)
(* ===================================================================== *)

Inductive ProcessingStatus : Type := PENDING | PROCESSING | SUCCESS | FAILED | RETRY.

Global Instance ProcessingStatus_eq_dec : EqDecision ProcessingStatus.
Proof. solve_decision. Defined.

(** [datetime] values are the text [isoformat()] gives for them. *)
Definition datetime := string.

Record InvoiceData := mkInvoiceData {
  invoice_number : option string;
  date : option string;
  due_date : option string;
  vendor_name : option string;
  vendor_address : option string;
  customer_name : option string;
  customer_address : option string;
  total_amount : option pyfloat;
  tax_amount : option pyfloat;
  subtotal : option pyfloat;
  currency : option string;
  line_items : list pyval;
  payment_terms : option string;
  notes : option string
}.

Record ProcessingResult := mkResult {
  file_id : string;
  original_filename : string;
  processed_filename : string;
  status : ProcessingStatus;
  invoice_data : option InvoiceData;
  error_message : option string;
  processing_time : option Q;
  created_at : datetime;
  updated_at : datetime
}.

Record SystemStats := mkStats {
  total_processed : Z;
  successful : Z;
  failed : Z;
  pending : Z;
  processing : Z;
  average_processing_time : Q;
  uptime : string
}.

(** [SystemStats()]: every field at its declared default. *)
Definition SystemStats_default : SystemStats :=
  {| total_processed := 0; successful := 0; failed := 0; pending := 0;
     processing := 0; average_processing_time := 0; uptime := "" |}.

(** The settings the pipeline reads. *)
Record Settings := mkSettings {
  incoming_path : Path;
  generated_path : Path;
  max_file_size_mb : Z;
  supported_formats : string;
  ai_processing_timeout_seconds : Z;
  file_processing_timeout_seconds : Z;
  batch_size : Z
}.

(** [Settings.supported_formats_list]:
    [[fmt.strip().lower() for fmt in self.supported_formats.split(",")]] *)
Definition supported_formats_list (cfg : Settings) : list string :=
  (fun fmt => str_lower (strip fmt)) <$> split_on "," (supported_formats cfg).

(** Pydantic's reading of one keyword when [InvoiceData] is built from a
    dictionary, for the shapes [_extract_fallback_data] stores: text, a float,
    a list, or nothing under that key.  No other shape occurs in a fallback
    dictionary; [None] stands for the [ValidationError] it would meet. *)
Definition opt_str (data : gmap string pyval) (key : string)
    : option (option string) :=
  match data !! key with
  | None | Some VNone => Some None
  | Some (VStr s) => Some (Some s)
  | Some _ => None
  end.

Definition opt_float (data : gmap string pyval) (key : string)
    : option (option pyfloat) :=
  match data !! key with
  | None | Some VNone => Some None
  | Some (VFloat x) => Some (Some x)
  | Some _ => None
  end.

Definition opt_list (data : gmap string pyval) (key : string)
    : option (list pyval) :=
  match data !! key with
  | None => Some []
  | Some (VList l) => Some l
  | Some _ => None
  end.

(** [InvoiceData] built from the keywords of [data] *)
Definition InvoiceData_of (data : gmap string pyval) : option InvoiceData :=
  a ← opt_str data "invoice_number";
  b ← opt_str data "date";
  c ← opt_str data "due_date";
  d ← opt_str data "vendor_name";
  e ← opt_str data "vendor_address";
  f ← opt_str data "customer_name";
  g ← opt_str data "customer_address";
  h ← opt_float data "total_amount";
  i ← opt_float data "tax_amount";
  j ← opt_float data "subtotal";
  k ← opt_str data "currency";
  l ← opt_list data "line_items";
  m ← opt_str data "payment_terms";
  n ← opt_str data "notes";
  Some (mkInvoiceData a b c d e f g h i j k l m n).


(* ===================================================================== *)
(** ** Exceptions, awaited calls and the effects of one call *)
(* ===================================================================== *)

(** The exceptions of the pipeline, all of them subclasses of [Exception]:
    [Exception(msg)] itself, [json.JSONDecodeError], [asyncio.TimeoutError],
    and any other one ([OSError], pydantic's [ValidationError], ...). *)
Inductive exn : Type :=
| Exception (msg : string)
| JSONDecodeError (msg : string)
| AsyncTimeoutError
| OtherError (msg : string).

(** [str(e)] *)
Definition str_of_exn (e : exn) : string :=
  match e with
  | Exception msg | JSONDecodeError msg | OtherError msg => msg
  | AsyncTimeoutError => ""
  end.

Inductive outcome (A : Type) : Type :=
| Ok (a : A)
| Raise (e : exn).
Arguments Ok {A} a.
Arguments Raise {A} e.

(** What [await asyncio.wait_for(call, timeout)] meets: the call finishes,
    normally or not, or the timer runs out first. *)
Inductive awaited (A : Type) : Type :=
| Done (o : outcome A)
| Expired.
Arguments Done {A} o.
Arguments Expired {A}.

(** [asyncio.wait_for]: an expired timer is an [asyncio.TimeoutError]. *)
Definition wait_for {A} (w : awaited A) : outcome A :=
  match w with
  | Done o => o
  | Expired => Raise AsyncTimeoutError
  end.

(** The effects of a call on the outside world, in the order they happen. *)
Inductive event : Type :=
| LLMInvoked (image : Path)
| JsonWritten (target : Path) (data : InvoiceData)
| FileCopied (source target : Path)
| FileRemoved (source : Path).

(** A computation that logs its effects and may raise. *)
Definition M (A : Type) : Type := list event * outcome A.

Definition ret {A} (a : A) : M A := ([], Ok a).
Definition raise {A} (e : exn) : M A := ([], Raise e).
Definition emit (ev : event) : M unit := ([ev], Ok tt).
Definition lift {A} (o : outcome A) : M A := ([], o).

Definition bind {A B} (m : M A) (f : A -> M B) : M B :=
  match m with
  | (evs, Ok a) => let '(evs', r) := f a in (evs ++ evs', r)
  | (evs, Raise e) => (evs, Raise e)
  end.

Global Instance M_bind : MBind M := fun A B f m => bind m f.
Global Instance M_ret : MRet M := @ret.

(** What one call of [process_single_file] reads from the outside world. *)
Record Env := mkEnv {
  (** [datetime.utcnow().isoformat()] and [uuid.uuid4()] in [generate_file_id] *)
  utcnow_iso : string;
  uuid4 : string;
  (** [datetime.utcnow()] when the result is created, and when it is updated *)
  utcnow_created : datetime;
  utcnow_updated : datetime;
  (** [st_size] of the file, [None] when [file_path.exists()] is false *)
  st_size : option Z;
  (** [_encode_image_to_base64(image_path)]: PIL and base64 *)
  encoded_image : outcome string;
  (** the model call under its own [wait_for] *)
  model_call : awaited string;
  (** whether the timer of the outer [wait_for] runs out during that call,
      the only point at which [process_invoice_image] awaits *)
  file_timer_expires : bool;
  (** [json.loads] followed by the construction of [InvoiceData] *)
  load_invoice : string -> outcome InvoiceData;
  (** [datetime.utcnow().strftime("%Y%m%d_%H%M%S")], which is also what
      [generate_timestamp_suffix()] computes *)
  timestamp_suffix : string;
  (** the paths that exist *)
  existing_paths : gset Path;
  (** [open] and [json.dump]; [shutil.copy2]; [file_path.unlink] *)
  write_json : outcome unit;
  copy_file : outcome unit;
  unlink_file : outcome unit;
  (** [time.time() - start_time] when the result is updated *)
  elapsed : Q
}.

(* ===================================================================== *)
(** ** [src/services/invoice_processor.py] *)
(* ===================================================================== *)

Record Service := mkService {
  processing_results : gmap string ProcessingResult;
  stats : SystemStats;
  is_processing : bool;
  (** whether [self.llm] is set *)
  llm : bool
}.

(** The two ways out when no JSON could be used. *)
Definition fallback_or_raise (response_content : string) (e : exn)
    : outcome InvoiceData :=
  match _extract_fallback_data response_content with
  | Some fallback_data =>
      match InvoiceData_of fallback_data with
      | Some data => Ok data
      | None => Raise e
      end
  | None => Raise e
  end.

(** The [try] block that reads the model's answer in [process_invoice_image]. *)
Definition parse_response (load : string -> outcome InvoiceData)
    (response_content : string) : outcome InvoiceData :=
  let json_str :=
    match re_search fenced_json_pattern response_content with
    | Some json_match => Some (strip (group_1 json_match))
    | None =>
        match re_search json_object_pattern response_content with
        | Some json_match => Some (strip (group0 json_match))
        | None => None
        end
    end in
  match json_str with
  | None =>
      match _extract_fallback_data response_content with
      | Some fallback_data =>
          match InvoiceData_of fallback_data with
          | Some data => Ok data
          | None => Raise (OtherError "validation error for InvoiceData")
          end
      | None => Raise (Exception "No valid JSON found in AI response")
      end
  | Some json_str =>
      match load json_str with
      | Raise (JSONDecodeError msg) =>
          fallback_or_raise response_content
            (Exception ("Invalid JSON response from AI model: " +:+ msg))
      | r => r
      end
  end.

(** [process_invoice_image], awaited under the outer [wait_for]. *)
Definition process_invoice_image (cfg : Settings) (env : Env) (svc : Service)
    (image_path : Path) : list event * awaited InvoiceData :=
  if negb (llm svc) then ([], Done (Raise (Exception "AI model not available")))
  else
    match encoded_image env with
    | Raise e => ([], Done (Raise e))
    | Ok _ =>
        if file_timer_expires env then ([LLMInvoked image_path], Expired)
        else
          ([LLMInvoked image_path],
           Done
             match wait_for (model_call env) with
             | Raise AsyncTimeoutError =>
                 Raise (Exception ("AI processing timeout after "
                                   +:+ pretty (ai_processing_timeout_seconds cfg)
                                   +:+ " seconds"))
             | Raise e => Raise e
             | Ok response_content =>
                 parse_response (load_invoice env) response_content
             end)
    end.

(** Conversion of an [int] to the nearest binary64, for [0 <= n]. *)
Definition float_of_int (n : Z) : Z :=
  if n <? 2 ^ 53 then n
  else
    let s := Z.log2 n - 52 in
    round_half_even (Qmake n (Z.to_pos (2 ^ s))) * 2 ^ s.

(** [get_file_size_mb]: [st_size / (1024 * 1024)], the division of two
    integers as floats.  The divisor is a power of two, so the quotient is the
    dividend rounded to 53 bits with its exponent lowered by 20. *)
Definition get_file_size_mb (size : option Z) : Q :=
  match size with
  | Some st_size => Qred (Qmake (float_of_int st_size) (2 ^ 20))
  | None => 0
  end.

(** The format [.2f] on a non-negative float. *)
Definition format_2f (x : Q) : string :=
  let m := round_half_even (x * 100) in
  pretty (m / 100) +:+ "." +:+ (if m mod 100 <? 10 then "0" else "")
    +:+ pretty (m mod 100).

Definition size_exceeded_message (cfg : Settings) (file_size_mb : Q) : string :=
  "File size (" +:+ format_2f file_size_mb
    +:+ "MB) exceeds maximum allowed size ("
    +:+ pretty (max_file_size_mb cfg) +:+ "MB)".

(** The size check: [if file_size_mb > settings.max_file_size_mb: raise ...] *)
Definition check_file_size (cfg : Settings) (env : Env) : outcome unit :=
  let file_size_mb := get_file_size_mb (st_size env) in
  if negb (Qle_bool file_size_mb (inject_Z (max_file_size_mb cfg)))
  then Raise (Exception (size_exceeded_message cfg file_size_mb))
  else Ok tt.

(** The body of the [try] of [process_single_file]: the invoice data and the
    path of the JSON file written for it. *)
Definition pipeline (cfg : Settings) (env : Env) (svc : Service)
    (file_path : Path) : M (InvoiceData * Path) :=
  lift (check_file_size cfg env);;
  invoice_data ←
    (let '(evs, w) := process_invoice_image cfg env svc file_path in
     (evs,
      match wait_for w with
      | Raise AsyncTimeoutError =>
          Raise (Exception ("File processing timeout after "
                            +:+ pretty (file_processing_timeout_seconds cfg)
                            +:+ " seconds"))
      | r => r
      end));
  let json_filename :=
    path_stem file_path +:+ "_" +:+ timestamp_suffix env +:+ ".json" in
  let json_path :=
    ensure_unique_filename (existing_paths env)
      (path_join (generated_path cfg) json_filename) in
  lift (write_json env);;
  emit (JsonWritten json_path invoice_data);;
  let moved_image_filename :=
    create_timestamped_filename (path_name file_path)
      (Some (timestamp_suffix env)) (timestamp_suffix env) in
  let moved_image_path :=
    ensure_unique_filename ({[json_path]} ∪ existing_paths env)
      (path_join (generated_path cfg) moved_image_filename) in
  lift (copy_file env);;
  emit (FileCopied file_path moved_image_path);;
  lift (unlink_file env);;
  emit (FileRemoved file_path);;
  mret (invoice_data, json_path).

Definition set_results (f : gmap string ProcessingResult -> gmap string ProcessingResult)
    (svc : Service) : Service :=
  {| processing_results := f (processing_results svc); stats := stats svc;
     is_processing := is_processing svc; llm := llm svc |}.

Definition set_stats (f : SystemStats -> SystemStats) (svc : Service) : Service :=
  {| processing_results := processing_results svc; stats := f (stats svc);
     is_processing := is_processing svc; llm := llm svc |}.

(** [self.stats.total_processed += 1] with [successful] or [failed]. *)
Definition count_success (st : SystemStats) : SystemStats :=
  {| total_processed := total_processed st + 1; successful := successful st + 1;
     failed := failed st; pending := pending st; processing := processing st;
     average_processing_time := average_processing_time st; uptime := uptime st |}.

Definition count_failure (st : SystemStats) : SystemStats :=
  {| total_processed := total_processed st + 1; successful := successful st;
     failed := failed st + 1; pending := pending st; processing := processing st;
     average_processing_time := average_processing_time st; uptime := uptime st |}.

(** The result a call creates before it starts the pipeline. *)
Definition new_result (env : Env) (file_id : string) (file_path : Path)
    : ProcessingResult :=
  {| file_id := file_id; original_filename := path_name file_path;
     processed_filename := ""; status := PROCESSING; invoice_data := None;
     error_message := None; processing_time := None;
     created_at := utcnow_created env; updated_at := utcnow_created env |}.

(** The cached result the call returns at once, if any. *)
Definition cached_result (svc : Service) (file_id : string)
    (force_reprocess : bool) : option ProcessingResult :=
  if force_reprocess then None
  else
    match processing_results svc !! file_id with
    | Some existing_result =>
        if decide (status existing_result = SUCCESS)
        then Some existing_result else None
    | None => None
    end.

(** [process_single_file].  The result object is stored in the dictionary and
    then updated in place: the entry under [file_id] is the returned result. *)
Definition process_single_file (cfg : Settings) (env : Env) (svc : Service)
    (file_path : Path) (force_reprocess : bool)
    : ProcessingResult * Service * list event :=
  let file_id :=
    generate_file_id (path_name file_path) (utcnow_iso env) (uuid4 env) in
  match cached_result svc file_id force_reprocess with
  | Some existing_result => (existing_result, svc, [])
  | None =>
      let result := new_result env file_id file_path in
      match pipeline cfg env svc file_path with
      | (evs, Ok (data, json_path)) =>
          let result :=
            {| file_id := file_id;
               original_filename := original_filename result;
               processed_filename := path_name json_path;
               status := SUCCESS; invoice_data := Some data;
               error_message := None; processing_time := Some (elapsed env);
               created_at := created_at result;
               updated_at := utcnow_updated env |} in
          (result,
           set_stats count_success (set_results <[file_id := result]> svc), evs)
      | (evs, Raise e) =>
          let result :=
            {| file_id := file_id;
               original_filename := original_filename result;
               processed_filename := ""; status := FAILED;
               invoice_data := None; error_message := Some (str_of_exn e);
               processing_time := Some (elapsed env);
               created_at := created_at result;
               updated_at := utcnow_updated env |} in
          (result,
           set_stats count_failure (set_results <[file_id := result]> svc), evs)
      end
  end.

(** An entry of a directory listing ([Path.iterdir]). *)
Record DirEntry := mkEntry { entry_name : string; entry_is_file : bool }.

(** The files a sweep of [process_files] collects in [files_to_process]. *)
Definition files_to_process (cfg : Settings) (dir : list DirEntry) : list Path :=
  omap (fun e =>
          let file_path := path_join (incoming_path cfg) (entry_name e) in
          if entry_is_file e
             && bool_decide (lstrip_char "." (str_lower (path_suffix file_path))
                               ∈ supported_formats_list cfg)
          then Some file_path else None) dir.

(** [range(0, stop, step)] for a positive [step]. *)
Definition range_step (stop step : nat) : list nat :=
  (fun k => k * step)%nat <$> seq 0 ((stop + step - 1) / step).

(** The batches of a sweep: [files[i:i + batch_size]] for [i] in
    [range(0, len(files), batch_size)].  A zero step makes [range] raise
    [ValueError]; a negative one gives no batch. *)
Definition batches {A} (batch_size : Z) (files : list A) : outcome (list (list A)) :=
  if batch_size =? 0 then Raise (OtherError "range() arg 3 must not be zero")
  else if batch_size <? 0 then Ok []
  else
    let n := Z.to_nat batch_size in
    Ok ((fun i => take n (drop i files)) <$> range_step (length files) n).

(** The batches of a sweep over a listing; [if files_to_process:] keeps an
    empty selection away from [range]. *)
Definition sweep_batches (cfg : Settings) (dir : list DirEntry)
    : outcome (list (list Path)) :=
  match files_to_process cfg dir with
  | [] => Ok []
  | files => batches (batch_size cfg) files
  end.

(** The calls of [process_single_file] a sweep ([process_files] without a
    specific file) makes, batch after batch; none while [is_processing]. *)
Definition sweep_dispatch (cfg : Settings) (svc : Service) (dir : list DirEntry)
    : outcome (list (list Path)) :=
  if is_processing svc then Ok [] else sweep_batches cfg dir.

(** [get_statistics], given the listing of the intake directory. *)
Definition get_statistics (cfg : Settings) (dir : list DirEntry) (svc : Service)
    : SystemStats * Service :=
  let processing_count :=
    length (filter (fun r => status r = PROCESSING)
                   (map_to_list (processing_results svc)).*2) in
  let pending_count := length (files_to_process cfg dir) in
  let st := stats svc in
  let st :=
    {| total_processed := total_processed st; successful := successful st;
       failed := failed st; pending := Z.of_nat pending_count;
       processing := Z.of_nat processing_count;
       average_processing_time := average_processing_time st;
       uptime := uptime st |} in
  (st, set_stats (fun _ => st) svc).

(** [delete_result] *)
Definition delete_result (svc : Service) (id : string) : bool * Service :=
  match processing_results svc !! id with
  | Some _ => (true, set_results (delete id) svc)
  | None => (false, svc)
  end.

(** [InvoiceProcessorService()] with the model at hand. *)
Definition new_service : Service :=
  {| processing_results := ∅; stats := SystemStats_default;
     is_processing := false; llm := true |}.

(* ===================================================================== *)
(** ** [src/services/file_monitor.py]: what feeds the processor *)
(* ===================================================================== *)

(** [_process_existing_files]: the files it puts on the queue. *)
Definition existing_files (cfg : Settings) (dir : list DirEntry) : list Path :=
  omap (fun e =>
          let file_path := path_join (incoming_path cfg) (entry_name e) in
          if entry_is_file e
             && is_supported_format (path_name file_path) (supported_formats_list cfg)
          then Some file_path else None) dir.

(** Who started a call of [process_single_file]. *)
Inductive origin : Type := FromQueue | FromSweep.

Global Instance origin_eq_dec : EqDecision origin.
Proof. solve_decision. Defined.

(** The coordinator between two steps of the event loop: the intake
    directory, the queue of the file handler, the calls of
    [process_single_file] that have started and not yet returned, the
    batches a running sweep still has to start, and the [is_processing]
    flag of the processor. *)
Record Coordinator := mkCoordinator {
  intake : list DirEntry;
  queue : list Path;
  in_flight : list (origin * Path);
  batches_left : list (list Path);
  sweeping : bool
}.

Definition from (o : origin) (c : Coordinator) : list Path :=
  (filter (fun t => t.1 = o) (in_flight c)).*2.

Fixpoint remove_first {A} `{EqDecision A} (x : A) (l : list A) : list A :=
  match l with
  | [] => []
  | y :: l' => if decide (x = y) then l' else y :: remove_first x l'
  end.

Inductive step (cfg : Settings) : Coordinator -> Coordinator -> Prop :=
(** [start_monitoring] awaits [_process_existing_files] *)
| step_existing c :
    step cfg c
      (mkCoordinator (intake c) (queue c ++ existing_files cfg (intake c))
         (in_flight c) (batches_left c) (sweeping c))
(** a creation or move event for a supported file that is still there after
    the settle delay: [_handle_new_file], [_queue_file_for_processing] *)
| step_event c name :
    is_supported_format name (supported_formats_list cfg) = true ->
    mkEntry name true ∈ intake c ->
    step cfg c
      (mkCoordinator (intake c) (queue c ++ [path_join (incoming_path cfg) name])
         (in_flight c) (batches_left c) (sweeping c))
(** [_process_queue] takes the head of the queue and awaits its processing;
    it takes the next one only when that call has returned *)
| step_drain c p q :
    queue c = p :: q -> from FromQueue c = [] ->
    step cfg c
      (mkCoordinator (intake c) q ((FromQueue, p) :: in_flight c)
         (batches_left c) (sweeping c))
(** [_periodic_processing] calls [process_files()], which starts when
    [is_processing] is unset and gathers its first batch *)
| step_sweep c bs :
    sweeping c = false ->
    sweep_batches cfg (intake c) = Ok bs ->
    step cfg c
      (mkCoordinator (intake c) (queue c)
         (((fun p => (FromSweep, p)) <$> (default [] (head bs))) ++ in_flight c)
         (tail bs) true)
(** the batch has been gathered: the next one starts *)
| step_batch c b bs :
    from FromSweep c = [] -> batches_left c = b :: bs ->
    step cfg c
      (mkCoordinator (intake c) (queue c)
         (((fun p => (FromSweep, p)) <$> b) ++ in_flight c) bs (sweeping c))
(** the last batch has been gathered: [finally: self.is_processing = False] *)
| step_sweep_end c :
    sweeping c = true -> from FromSweep c = [] -> batches_left c = [] ->
    step cfg c
      (mkCoordinator (intake c) (queue c) (in_flight c) [] false)
(** a call returns; on success it has removed its file from the intake *)
| step_return c o p (ok : bool) :
    (o, p) ∈ in_flight c ->
    step cfg c
      (mkCoordinator
         (if ok then filter (fun e => path_join (incoming_path cfg) (entry_name e) ≠ p)
                            (intake c)
          else intake c)
         (queue c) (remove_first (o, p) (in_flight c)) (batches_left c)
         (sweeping c)).

(** The states the coordinator can be in, from a given start. *)
Inductive reachable (cfg : Settings) (c0 : Coordinator) : Coordinator -> Prop :=
| reach_start : reachable cfg c0 c0
| reach_step c c' : reachable cfg c0 c -> step cfg c c' -> reachable cfg c0 c'.

(** The monitor right after [start_monitoring] has created its tasks. *)
Definition started (dir : list DirEntry) : Coordinator :=
  mkCoordinator dir [] [] [] false.


(** The record [InvoiceData] makes of the dictionary of
    [_extract_fallback_data] ([InvoiceData_of_fallback] below). *)
Definition fallback_invoice (s : string) : InvoiceData :=
  {| invoice_number := Some (default "UNKNOWN" (first_group invoice_patterns s));
     date := Some (default "UNKNOWN" (first_group date_patterns s));
     due_date := None;
     vendor_name := Some (default "UNKNOWN" (first_group vendor_patterns s));
     vendor_address := None; customer_name := None; customer_address := None;
     total_amount := Some (default (Finite 0) (first_amount total_patterns s));
     tax_amount := None; subtotal := None;
     currency :=
       Some (default "USD" (str_upper ∘ group_1 <$> re_search currency_pattern s));
     line_items := []; payment_terms := None; notes := None |}.

(* ===================================================================== *)
(** ** The specification's side of the comparisons *)
(* ===================================================================== *)

(** The lower-cased extension of a file name without its leading dot, as the
    specification words the test of [is_supported_format]. *)
Definition lowercase_extension (filename : string) : string :=
  str_lower (str_drop 1 (path_suffix (Path_of filename))).

(** The mean of the processing times of the results with status [SUCCESS],
    as the specification words the statistic ([0.0], the default of the
    field, when there is none). *)
Definition success_times (svc : Service) : list Q :=
  omap (fun r => if decide (status r = SUCCESS) then processing_time r else None)
       (map_to_list (processing_results svc)).*2.

Definition mean_success_time (svc : Service) : Q :=
  match success_times svc with
  | [] => 0%Q
  | ts => (fold_right Qplus 0 ts / inject_Z (Z.of_nat (length ts)))%Q
  end.

(** A path is logically enqueued while it waits in the queue or is being
    processed; the specification has every path so at most once. *)
Definition enqueued_at_most_once (c : Coordinator) : Prop :=
  NoDup (queue c ++ (in_flight c).*2).

(** *** Where a label stands in a response *)



(** Whether a text begins with a character of a class. *)
Definition starts_in (p : ascii -> bool) (s : string) : bool :=
  match s with
  | String c _ => p c
  | EmptyString => false
  end.




(* ===================================================================== *)
(** ** Concrete settings and calls *)
(* ===================================================================== *)

(** The defaults of [config/settings.py], with the two folders at fixed
    absolute paths. *)
Definition default_settings : Settings :=
  {| incoming_path := Path_of "/srv/incoming";
     generated_path := Path_of "/srv/generated";
     max_file_size_mb := 10;
     supported_formats := "jpg,jpeg,png,pdf,tiff";
     ai_processing_timeout_seconds := 1800;
     file_processing_timeout_seconds := 2400;
     batch_size := 10 |}.

(** [InvoiceData()] *)
Definition empty_invoice : InvoiceData :=
  {| invoice_number := None; date := None; due_date := None;
     vendor_name := None; vendor_address := None; customer_name := None;
     customer_address := None; total_amount := None; tax_amount := None;
     subtotal := None; currency := None; line_items := [];
     payment_terms := None; notes := None |}.

(** A JSON reader that knows the empty object. *)
Definition load_empty_object (json_str : string) : outcome InvoiceData :=
  if String.eqb json_str "{}" then Ok empty_invoice
  else Raise (JSONDecodeError "Expecting value: line 1 column 1 (char 0)").

(** A call on a file of 2048 bytes that the model answers with [{}] after
    two seconds, at a given time and with a given random identifier. *)
Definition answered_call (now uuid suffix : string) (present : gset Path) : Env :=
  {| utcnow_iso := now; uuid4 := uuid; utcnow_created := now;
     utcnow_updated := now; st_size := Some 2048;
     encoded_image := Ok "/9j/4AAQSkZJRg=="; model_call := Done (Ok "{}");
     file_timer_expires := false; load_invoice := load_empty_object;
     timestamp_suffix := suffix; existing_paths := present;
     write_json := Ok tt; copy_file := Ok tt; unlink_file := Ok tt;
     elapsed := 2 |}.

Definition first_call : Env :=
  answered_call "2024-01-15T10:30:00.123456"
    "123e4567-e89b-42d3-a456-426614174000" "20240115_103002" ∅.

(** The same file name handed in again a minute later. *)
Definition second_call : Env :=
  answered_call "2024-01-15T10:31:00.654321"
    "9b2f4c3e-7d1a-4e5b-8c6f-0a1b2c3d4e5f" "20240115_103102"
    {[ Path_of "/srv/generated/a_20240115_103002.json";
       Path_of "/srv/generated/a_20240115_103002.jpg" ]}.

(** A call on a file of the given size. *)
Definition call_on_size (size : Z) : Env :=
  {| utcnow_iso := utcnow_iso first_call; uuid4 := uuid4 first_call;
     utcnow_created := utcnow_created first_call;
     utcnow_updated := utcnow_updated first_call; st_size := Some size;
     encoded_image := encoded_image first_call;
     model_call := model_call first_call;
     file_timer_expires := false; load_invoice := load_empty_object;
     timestamp_suffix := timestamp_suffix first_call; existing_paths := ∅;
     write_json := Ok tt; copy_file := Ok tt; unlink_file := Ok tt;
     elapsed := 2 |}.

Definition a_jpg : Path := Path_of "/srv/incoming/a.jpg".

(** The store of [test_get_statistics]: one result with status [SUCCESS] and
    a processing time of 1.5, one with status [FAILED], both put into the
    dictionary by hand. *)
Definition test_result_1 : ProcessingResult :=
  {| file_id := generate_file_id "test1.jpg" "2024-01-15T10:30:00.000001"
                  "11111111-1111-4111-8111-111111111111";
     original_filename := "test1.jpg"; processed_filename := "test1.json";
     status := SUCCESS; invoice_data := None; error_message := None;
     processing_time := Some (3 # 2);
     created_at := "2024-01-15T10:30:00.000002";
     updated_at := "2024-01-15T10:30:00.000003" |}.

Definition test_result_2 : ProcessingResult :=
  {| file_id := generate_file_id "test2.jpg" "2024-01-15T10:30:00.000004"
                  "22222222-2222-4222-8222-222222222222";
     original_filename := "test2.jpg"; processed_filename := "";
     status := FAILED; invoice_data := None;
     error_message := Some "Test error"; processing_time := None;
     created_at := "2024-01-15T10:30:00.000005";
     updated_at := "2024-01-15T10:30:00.000006" |}.

Definition test_service : Service :=
  set_results
    (fun results =>
       <[file_id test_result_2 := test_result_2]>
         (<[file_id test_result_1 := test_result_1]> results))
    new_service.

(** Settings with a limit of 2^33 megabytes, where a size in bytes no
    longer fits the 53 bits of a float. *)
Definition huge_limit_settings : Settings :=
  {| incoming_path := Path_of "/srv/incoming";
     generated_path := Path_of "/srv/generated";
     max_file_size_mb := 2 ^ 33;
     supported_formats := "jpg,jpeg,png,pdf,tiff";
     ai_processing_timeout_seconds := 1800;
     file_processing_timeout_seconds := 2400;
     batch_size := 10 |}.





(* ===================================================================== *)
(** * Properties *)
(* ===================================================================== *)

(** ** Strings *)

Lemma length_app (s t : string) :
  String.length (s +:+ t) = (String.length s + String.length t)%nat.
Proof. induction s as [|c s IH]; simpl; [done | by rewrite IH]. Qed.

Lemma length_str_take (n : nat) (s : string) :
  String.length (str_take n s) = (n `min` String.length s)%nat.
Proof.
  revert s. induction n as [|n IH]; intros [|c s]; simpl; try done.
  by rewrite IH.
Qed.

Lemma str_take_drop (n : nat) (s : string) : str_take n s +:+ str_drop n s = s.
Proof.
  revert s. induction n as [|n IH]; intros [|c s]; try done.
  change (String c (str_take n s +:+ str_drop n s) = String c s).
  by rewrite IH.
Qed.

Lemma len_nonneg (s : string) : 0 <= len s.
Proof. unfold len. lia. Qed.

Lemma len_slice_to (k : Z) (s : string) :
  len (slice_to k s) = if k <? 0 then Z.max 0 (k + len s) else Z.min k (len s).
Proof.
  unfold slice_to, len. rewrite length_str_take.
  pose proof (len_nonneg s) as Hs. unfold len in Hs.
  destruct (k <? 0) eqn:Hk; lia.
Qed.

Lemma app_inj_r (s1 s2 t : string) : s1 +:+ t = s2 +:+ t -> s1 = s2.
Proof.
  intros Heq.
  assert (Hlen : String.length s1 = String.length s2).
  { apply (f_equal String.length) in Heq. rewrite !length_app in Heq. lia. }
  revert s2 Heq Hlen.
  induction s1 as [|c s1 IH]; intros [|d s2] Heq Hlen; simpl in Hlen; try done.
  change (String c (s1 +:+ t) = String d (s2 +:+ t)) in Heq.
  injection Heq as -> Heq. f_equal. apply IH; [done | lia].
Qed.

(** ** [truncate_text] *)

Lemma truncate_text_short (text : string) (max_length : Z) :
  len text <= max_length -> truncate_text text max_length = text.
Proof. intros H. unfold truncate_text. by rewrite (proj2 (Z.leb_le _ _) H). Qed.

Lemma len_truncate_text_long (text : string) (max_length : Z) :
  max_length < len text ->
  len (truncate_text text max_length)
  = 3 + (if max_length - 3 <? 0 then Z.max 0 (max_length - 3 + len text)
         else max_length - 3).
Proof.
  intros H. unfold truncate_text.
  rewrite (proj2 (Z.leb_gt _ _) H).
  unfold len at 1. rewrite length_app, Nat2Z.inj_add.
  fold (len (slice_to (max_length - 3) text)). rewrite len_slice_to.
  change (Z.of_nat (String.length "...")) with 3.
  destruct (max_length - 3 <? 0) eqn:Hk; lia.
Qed.

(** C10.  For [3 <= max_length] the text [truncate_text] returns is at most
    [max_length] long and is the argument itself exactly when that one is at
    most [max_length] long.  The bound on [max_length] cannot be dropped:
    below 3, every text longer than [max_length] comes back longer than
    [max_length], the slice bound [max_length - 3] being negative. *)
Theorem truncate_text_bound (text : string) (max_length : Z) :
  (3 <= max_length ->
     len (truncate_text text max_length) <= max_length
     /\ (truncate_text text max_length = text <-> len text <= max_length))
  /\ (max_length < 3 -> max_length < len text ->
        max_length < len (truncate_text text max_length)).
Proof.
  split.
  - intros H3. destruct (Z.le_gt_cases (len text) max_length) as [Hle | Hgt].
    + rewrite truncate_text_short by done. by split.
    + pose proof (len_truncate_text_long text max_length Hgt) as Hlen.
      rewrite (proj2 (Z.ltb_ge _ _)) in Hlen by lia.
      split; [lia |]. split; [| lia].
      intros Heq. rewrite Heq in Hlen. lia.
  - intros H3 Hgt.
    rewrite (len_truncate_text_long text max_length Hgt).
    rewrite (proj2 (Z.ltb_lt _ _)) by lia. lia.
Qed.

Lemma truncate_text_bound_witness :
  len (truncate_text "abcdefghij" 5) <= 5
  /\ (truncate_text "abc" 3 = "abc" <-> len "abc" <= 3)
  /\ 2 < len (truncate_text "abcdef" 2).
Proof.
  split; [| split].
  - apply (truncate_text_bound "abcdefghij" 5). lia.
  - apply (truncate_text_bound "abc" 3). lia.
  - apply (truncate_text_bound "abcdef" 2); [lia | vm_compute; reflexivity].
Defined.

(** ** [is_supported_format] *)

Lemma rfind_Some (c : ascii) (s : string) (i : nat) :
  rfind c s = Some i ->
  exists rest, str_drop i s = String c rest /\ rfind c rest = None.
Proof.
  revert i. induction s as [|a s IH]; intros i; simpl; [done |].
  destruct (rfind c s) as [j|] eqn:Hj.
  - intros [= <-]. simpl. by apply IH.
  - destruct (Ascii.eqb a c) eqn:Ha; [| done].
    intros [= <-]. apply Ascii.eqb_eq in Ha as ->. by exists s.
Qed.

Lemma rfind_None_head (c a : ascii) (s : string) :
  rfind c (String a s) = None -> a <> c.
Proof.
  simpl. destruct (rfind c s); [done |].
  destruct (Ascii.eqb a c) eqn:Ha; [done |].
  intros _. by apply Ascii.eqb_neq.
Qed.

Lemma lower_char_dot (x : ascii) : lower_char x = "."%char -> x = "."%char.
Proof.
  destruct x as [[] [] [] [] [] [] [] []]; vm_compute; congruence.
Qed.

(** The suffix of a name is empty, or a dot followed by text without dots. *)
Lemma name_suffix_shape (name : string) :
  name_suffix name = ""
  \/ exists rest, name_suffix name = String "." rest /\ rfind "." rest = None.
Proof.
  unfold name_suffix, suffix_index.
  destruct (rfind "." name) as [i|] eqn:Hi; [| by left].
  destruct (_ && _); [| by left].
  right. by apply rfind_Some.
Qed.

Lemma lstrip_dot_lower (rest : string) :
  rfind "." rest = None ->
  lstrip_char "." (str_lower (String "." rest)) = str_lower rest.
Proof.
  intros Hrest. change (str_lower (String "." rest)) with (String "." (str_lower rest)).
  simpl. destruct rest as [|a rest]; [done |].
  simpl. destruct (Ascii.eqb (lower_char a) ".") eqn:Ha; [| done].
  apply Ascii.eqb_eq, lower_char_dot in Ha.
  by apply rfind_None_head in Hrest.
Qed.

Lemma get_file_extension_lowercase (filename : string) :
  get_file_extension filename = lowercase_extension filename.
Proof.
  unfold get_file_extension, lowercase_extension, path_suffix.
  destruct (name_suffix_shape (path_name (Path_of filename)))
    as [-> | (rest & -> & Hrest)]; [done |].
  by rewrite lstrip_dot_lower.
Qed.

(** C8.  [is_supported_format] answers true exactly when the lower-cased
    extension of the file name, without its leading dot, is in the given
    formats; [INVOICE.PDF] and [invoice.pdf] get the same answer whatever
    the formats are. *)
Theorem is_supported_format_iff (filename : string)
    (supported_formats : list string) :
  (is_supported_format filename supported_formats = true
   <-> lowercase_extension filename ∈ supported_formats)
  /\ is_supported_format "INVOICE.PDF" supported_formats
     = is_supported_format "invoice.pdf" supported_formats.
Proof.
  split; [| done].
  unfold is_supported_format.
  rewrite bool_decide_eq_true. by rewrite get_file_extension_lowercase.
Qed.

(** ** [ensure_unique_filename] *)

Global Instance numbered_inj (original_path : Path) :
  Inj (=) (=) (numbered original_path).
Proof.
  intros j k Heq. unfold numbered, path_join in Heq.
  injection Heq as Heq.
  apply app_inj_tail in Heq as [_ Heq].
  apply (inj (String.app _)) in Heq.
  apply (inj (String.app _)) in Heq.
  apply app_inj_r in Heq. by apply (inj pretty).
Qed.

(** A finite file system leaves one of the first [size fs + 1] numbered
    names free. *)
Lemma free_number (fs : gset Path) (original_path : Path) :
  exists k, (1 <= k <= S (size fs))%nat /\ numbered original_path k ∉ fs.
Proof.
  set (ks := seq 1 (S (size fs))).
  destruct (decide (Forall (fun k => numbered original_path k ∈ fs) ks))
    as [Hall | Hnot].
  - exfalso.
    assert (Hnd : NoDup (numbered original_path <$> ks)).
    { apply (NoDup_fmap_2 _), NoDup_seq. }
    assert (Hsub : list_to_set (C := gset Path) (numbered original_path <$> ks) ⊆ fs).
    { intros p. rewrite elem_of_list_to_set, list_elem_of_fmap.
      intros (k & -> & Hk). by eapply Forall_forall in Hall. }
    apply subseteq_size in Hsub.
    rewrite size_list_to_set in Hsub by done.
    rewrite length_fmap in Hsub. unfold ks in Hsub. rewrite length_seq in Hsub. lia.
  - apply not_Forall_Exists in Hnot; [| apply _].
    apply Exists_exists in Hnot as (k & Hk & Hfree).
    exists k. split; [| done].
    apply elem_of_seq in Hk. lia.
Qed.

(** The loop from [counter] on: it stops at the first free number, provided
    one lies within [fuel] of [counter]. *)
Lemma unique_loop_finds (fs : gset Path) (original_path : Path) (d : nat) :
  forall fuel counter,
    (d <= fuel)%nat ->
    numbered original_path (counter + d) ∉ fs ->
    exists k,
      (counter <= k <= counter + d)%nat
      /\ unique_loop fs original_path fuel (S counter)
           (numbered original_path counter)
         = Some (numbered original_path k)
      /\ (numbered original_path k ∉ fs)
      /\ forall j, (counter <= j < k)%nat -> numbered original_path j ∈ fs.
Proof.
  induction d as [|d IH]; intros fuel counter Hfuel Hfree.
  - rewrite Nat.add_0_r in Hfree. exists counter.
    split; [lia |]. split; [| split; [done | lia]].
    destruct fuel; simpl; by rewrite decide_False.
  - destruct (decide (numbered original_path counter ∈ fs)) as [Hin | Hout].
    + destruct fuel as [|fuel]; [lia |].
      destruct (IH fuel (S counter)) as (k & Hk & Hloop & Hk_free & Hbelow).
      { lia. }
      { by replace (S counter + d)%nat with (counter + S d)%nat by lia. }
      exists k. split; [lia |]. split; [| split; [done |]].
      * simpl. by rewrite decide_True.
      * intros j Hj. destruct (decide (j = counter)) as [-> | Hne]; [done |].
        apply Hbelow. lia.
    + exists counter. split; [lia |]. split; [| split; [done | lia]].
      destruct fuel; simpl; by rewrite decide_False.
Qed.

(** With at least [size fs + 1] rounds the loop of [ensure_unique_filename]
    ends, on the target itself when it is free and else on the first free
    numbered name. *)
Lemma ensure_unique_filename_total (fs : gset Path) (target_path : Path)
    (fuel : nat) :
  (S (size fs) <= fuel)%nat ->
  exists p,
    ensure_unique_filename_fuel fuel fs target_path = Some p
    /\ (p ∉ fs)
    /\ (target_path ∉ fs -> p = target_path)
    /\ (target_path ∈ fs ->
        exists k, (1 <= k)%nat /\ p = numbered target_path k
                  /\ forall j, (1 <= j < k)%nat -> numbered target_path j ∈ fs).
Proof.
  intros Hfuel. unfold ensure_unique_filename_fuel.
  destruct (decide (target_path ∈ fs)) as [Hin | Hout].
  - destruct (free_number fs target_path) as (m & Hm & Hfree).
    destruct fuel as [|fuel]; [lia |].
    destruct (unique_loop_finds fs target_path (m - 1) fuel 1)
      as (k & Hk & Hloop & Hk_free & Hbelow).
    { lia. }
    { by replace (1 + (m - 1))%nat with m by lia. }
    exists (numbered target_path k).
    split; [| split; [done | split; [done |]]].
    + simpl. by rewrite decide_True.
    + intros _. exists k. split; [lia | by split].
  - exists target_path. split; [done | split; [done | split; [done |]]].
    by intros ?.
Qed.

(** C7.  [ensure_unique_filename] returns a path that does not exist: the
    target itself when it is free, else the target with the first free
    counter, counting from 1, put before its extension.  The loop ends
    within [size fs + 1] rounds, and more rounds do not change the answer.
    With [a.jpg], [a_1.jpg] and [a_2.jpg] present, [a.jpg] becomes
    [a_3.jpg]. *)
Theorem ensure_unique_filename_fresh (fs : gset Path) (target_path : Path) :
  let p := ensure_unique_filename fs target_path in
  (p ∉ fs)
  /\ (forall fuel, (S (size fs) <= fuel)%nat ->
        ensure_unique_filename_fuel fuel fs target_path = Some p)
  /\ (target_path ∉ fs -> p = target_path)
  /\ (target_path ∈ fs ->
      exists k, (1 <= k)%nat /\ p = numbered target_path k
                /\ forall j, (1 <= j < k)%nat -> numbered target_path j ∈ fs)
  /\ ensure_unique_filename
       {[Path_of "a.jpg"; Path_of "a_1.jpg"; Path_of "a_2.jpg"]} (Path_of "a.jpg")
     = Path_of "a_3.jpg".
Proof.
  intros p.
  destruct (ensure_unique_filename_total fs target_path (S (size fs)))
    as (q & Hq & Hfresh & Hfree & Htaken); [lia |].
  assert (Hp : p = q).
  { unfold p, ensure_unique_filename. by rewrite Hq. }
  rewrite Hp. split; [done |]. split; [| split; [done | split; [done |]]].
  - intros fuel Hfuel.
    destruct (ensure_unique_filename_total fs target_path fuel Hfuel)
      as (q' & Hq' & _ & Hfree' & Htaken').
    rewrite Hq'. f_equal.
    destruct (decide (target_path ∈ fs)) as [Hin | Hout].
    + destruct (Htaken Hin) as (k & Hk & -> & Hbelow).
      destruct (Htaken' Hin) as (k' & Hk' & -> & Hbelow').
      f_equal. destruct (Nat.lt_trichotomy k k') as [Hlt | [-> | Hlt]]; [| done |].
      * exfalso. apply Hfresh, Hbelow'. lia.
      * exfalso.
        destruct (ensure_unique_filename_total fs target_path fuel Hfuel)
          as (q'' & Hq'' & Hfresh'' & _ & _).
        rewrite Hq' in Hq''. injection Hq'' as <-.
        apply Hfresh'', Hbelow. lia.
    + by rewrite Hfree, Hfree'.
  - by vm_compute.
Qed.

Lemma ensure_unique_filename_fresh_witness :
  ensure_unique_filename {[Path_of "out/a.json"]} (Path_of "out/b.json")
  = Path_of "out/b.json"
  /\ exists k, (1 <= k)%nat
       /\ ensure_unique_filename {[Path_of "out/a.json"]} (Path_of "out/a.json")
          = numbered (Path_of "out/a.json") k
       /\ forall j, (1 <= j < k)%nat ->
            numbered (Path_of "out/a.json") j ∈ ({[Path_of "out/a.json"]} : gset Path).
Proof.
  split.
  - apply (ensure_unique_filename_fresh {[Path_of "out/a.json"]} (Path_of "out/b.json")).
    by vm_compute.
  - apply (ensure_unique_filename_fresh {[Path_of "out/a.json"]} (Path_of "out/a.json")).
    by apply elem_of_singleton.
Defined.

(** ** The response parser *)

Lemma lookup_set_if {A} (key : string) (f : A -> pyval) (o : option A)
    (data : gmap string pyval) (k : string) :
  set_if key f o data !! k
  = if decide (key = k) then
      match o with Some x => Some (f x) | None => data !! k end
    else data !! k.
Proof.
  unfold set_if. destruct o as [x|].
  - rewrite lookup_insert. by case_decide.
  - by case_decide.
Qed.

Lemma lookup_setdefault (key : string) (v : pyval) (data : gmap string pyval)
    (k : string) :
  setdefault key v data !! k
  = if decide (key = k) then Some (default v (data !! k)) else data !! k.
Proof.
  unfold setdefault. destruct (data !! key) as [w|] eqn:Hw.
  - case_decide; [subst; by rewrite Hw | done].
  - rewrite lookup_insert. case_decide; [subst; by rewrite Hw | done].
Qed.

Ltac fallback_lookup :=
  unfold fallback_dict;
  rewrite ?lookup_setdefault, ?lookup_set_if, ?lookup_empty;
  repeat case_decide; try done.

(** What the dictionary of [_extract_fallback_data] holds under its keys. *)
Lemma fallback_dict_invoice_number (s : string) :
  fallback_dict s !! "invoice_number"
  = Some (VStr (default "UNKNOWN" (first_group invoice_patterns s))).
Proof. fallback_lookup. by destruct (first_group _ _). Qed.

Lemma fallback_dict_date (s : string) :
  fallback_dict s !! "date"
  = Some (VStr (default "UNKNOWN" (first_group date_patterns s))).
Proof. fallback_lookup. by destruct (first_group _ _). Qed.

Lemma fallback_dict_vendor_name (s : string) :
  fallback_dict s !! "vendor_name"
  = Some (VStr (default "UNKNOWN" (first_group vendor_patterns s))).
Proof. fallback_lookup. by destruct (first_group _ _). Qed.

Lemma fallback_dict_total_amount (s : string) :
  fallback_dict s !! "total_amount"
  = Some (VFloat (default (Finite 0) (first_amount total_patterns s))).
Proof. fallback_lookup. by destruct (first_amount _ _). Qed.

Lemma fallback_dict_currency (s : string) :
  fallback_dict s !! "currency"
  = Some (VStr (default "USD"
                  (str_upper ∘ group_1 <$> re_search currency_pattern s))).
Proof. fallback_lookup. by destruct (re_search _ _). Qed.

Lemma fallback_dict_line_items (s : string) :
  fallback_dict s !! "line_items" = Some (VList []).
Proof. fallback_lookup. Qed.

Lemma fallback_dict_other (s k : string) :
  k <> "invoice_number" -> k <> "date" -> k <> "vendor_name" ->
  k <> "total_amount" -> k <> "currency" -> k <> "line_items" ->
  fallback_dict s !! k = None.
Proof. intros. fallback_lookup. Qed.

(** The list of line items alone is neither ['UNKNOWN'] nor [0.0]: the test
    at the [return] of [_extract_fallback_data] never fails. *)
Lemma any_non_sentinel_fallback (s : string) :
  any_non_sentinel (fallback_dict s) = true.
Proof.
  unfold any_non_sentinel, values. apply existsb_exists.
  exists (VList []). split; [| done].
  apply list_elem_of_In, list_elem_of_fmap.
  exists ("line_items", VList []). split; [done |].
  apply elem_of_map_to_list, fallback_dict_line_items.
Qed.

Lemma extract_fallback_data_Some (s : string) :
  _extract_fallback_data s = Some (fallback_dict s).
Proof. unfold _extract_fallback_data. by rewrite any_non_sentinel_fallback. Qed.

Lemma InvoiceData_of_fallback (s : string) :
  InvoiceData_of (fallback_dict s) = Some (fallback_invoice s).
Proof.
  unfold InvoiceData_of, opt_str, opt_float, opt_list.
  rewrite fallback_dict_invoice_number, fallback_dict_date,
    fallback_dict_vendor_name, fallback_dict_total_amount,
    fallback_dict_currency, fallback_dict_line_items.
  rewrite !fallback_dict_other by done.
  done.
Qed.

(** A response in which neither JSON pattern matches is answered from the
    fallback dictionary, whatever it holds. *)
Lemma parse_response_without_json (load : string -> outcome InvoiceData)
    (s : string) :
  re_search fenced_json_pattern s = None ->
  re_search json_object_pattern s = None ->
  parse_response load s = Ok (fallback_invoice s).
Proof.
  intros Hfence Hobject. unfold parse_response.
  by rewrite Hfence, Hobject, extract_fallback_data_Some, InvoiceData_of_fallback.
Qed.

(** ** The matcher on texts that begin as the pattern asks *)










(** ** The search for a pattern that begins with a word *)










(** ** Responses without a brace or a backquote hold no JSON *)

Lemma rmatch_chr_cat {R} (c : ascii) (r : regex) (s : string)
    (g : option string) (k : string -> option string -> option R) :
  starts_in (Ascii.eqb c) s = false -> rmatch (Cat (chr c) r) s g k = None.
Proof. destruct s as [|d s]; [done |]. simpl. by intros ->. Qed.




(** ** The two labelled lines *)








(** C2, on the response of the repository's own test for an unusable answer,
    [Invalid JSON content]: neither JSON pattern matches and no field pattern
    matches, yet [_extract_fallback_data] returns its dictionary of defaults
    and the parser returns a record, where the claim has it signal failure.
    The dictionary always holds the currency ['USD'] and the empty list of
    line items, which are neither ['UNKNOWN'] nor [0.0]. *)
Theorem noise_is_parsed_into_defaults :
  let text := "Invalid JSON content" in
  re_search fenced_json_pattern text = None
  /\ re_search json_object_pattern text = None
  /\ first_group invoice_patterns text = None
  /\ first_group date_patterns text = None
  /\ first_group vendor_patterns text = None
  /\ first_amount total_patterns text = None
  /\ re_search currency_pattern text = None
  /\ _extract_fallback_data text <> None
  /\ forall load,
       parse_response load text
       = Ok {| invoice_number := Some "UNKNOWN"; date := Some "UNKNOWN";
               due_date := None; vendor_name := Some "UNKNOWN";
               vendor_address := None; customer_name := None;
               customer_address := None; total_amount := Some (Finite 0);
               tax_amount := None; subtotal := None; currency := Some "USD";
               line_items := []; payment_terms := None; notes := None |}.
Proof.
  intros text.
  assert (Hfence : re_search fenced_json_pattern text = None) by by vm_compute.
  assert (Hobject : re_search json_object_pattern text = None) by by vm_compute.
  do 7 (split; [by vm_compute |]).
  split.
  - by rewrite extract_fallback_data_Some.
  - intros load. rewrite parse_response_without_json by done. by vm_compute.
Qed.

(** ** [process_single_file]: errors stay inside *)

(** What [process_single_file] does when it runs the pipeline and the
    pipeline raises. *)
Lemma process_single_file_failed cfg env svc file_path force_reprocess evs e :
  let id := generate_file_id (path_name file_path) (utcnow_iso env) (uuid4 env) in
  cached_result svc id force_reprocess = None ->
  pipeline cfg env svc file_path = (evs, Raise e) ->
  process_single_file cfg env svc file_path force_reprocess
  = (let result :=
       {| file_id := id; original_filename := path_name file_path;
          processed_filename := ""; status := FAILED; invoice_data := None;
          error_message := Some (str_of_exn e);
          processing_time := Some (elapsed env);
          created_at := utcnow_created env; updated_at := utcnow_updated env |} in
     (result, set_stats count_failure (set_results <[id := result]> svc), evs)).
Proof.
  intros id Hcache Hpipe. unfold process_single_file.
  fold id. by rewrite Hcache, Hpipe.
Qed.

(** The result of a call is always a terminal one. *)
Lemma process_single_file_terminal cfg env svc file_path force_reprocess :
  let result := (process_single_file cfg env svc file_path force_reprocess).1.1 in
  status result = SUCCESS \/ status result = FAILED.
Proof.
  unfold process_single_file, cached_result.
  destruct force_reprocess.
  - destruct (pipeline _ _ _ _) as [evs [[data json_path] | e]]; simpl; auto.
  - destruct (processing_results svc !! _) as [existing|].
    + case_decide; [by left |].
      destruct (pipeline _ _ _ _) as [evs [[data json_path] | e]]; simpl; auto.
    + destruct (pipeline _ _ _ _) as [evs [[data json_path] | e]]; simpl; auto.
Qed.

(** Each step of the pipeline that fails makes the pipeline raise. *)
Lemma pipeline_size_error cfg env svc file_path e :
  check_file_size cfg env = Raise e ->
  pipeline cfg env svc file_path = ([], Raise e).
Proof. intros H. unfold pipeline, lift. by rewrite H. Qed.

Lemma pipeline_after_size cfg env svc file_path :
  check_file_size cfg env = Ok tt ->
  pipeline cfg env svc file_path
  = (invoice_data ←
       (let '(evs, w) := process_invoice_image cfg env svc file_path in
        (evs,
         match wait_for w with
         | Raise AsyncTimeoutError =>
             Raise (Exception ("File processing timeout after "
                               +:+ pretty (file_processing_timeout_seconds cfg)
                               +:+ " seconds"))
         | r => r
         end));
     let json_path :=
       ensure_unique_filename (existing_paths env)
         (path_join (generated_path cfg)
            (path_stem file_path +:+ "_" +:+ timestamp_suffix env +:+ ".json")) in
     lift (write_json env);;
     emit (JsonWritten json_path invoice_data);;
     lift (copy_file env);;
     emit (FileCopied file_path
             (ensure_unique_filename ({[json_path]} ∪ existing_paths env)
                (path_join (generated_path cfg)
                   (create_timestamped_filename (path_name file_path)
                      (Some (timestamp_suffix env)) (timestamp_suffix env)))));;
     lift (unlink_file env);;
     emit (FileRemoved file_path);;
     mret (invoice_data, json_path)).
Proof.
  intros H. unfold pipeline, lift. rewrite H.
  unfold mbind at 1, M_bind at 1, bind at 1.
  by destruct (_ ≫= _).
Qed.

Lemma pipeline_image_error cfg env svc file_path evs e :
  check_file_size cfg env = Ok tt ->
  process_invoice_image cfg env svc file_path = (evs, Done (Raise e)) ->
  e <> AsyncTimeoutError ->
  pipeline cfg env svc file_path = (evs, Raise e).
Proof.
  intros Hsize Himage He. rewrite pipeline_after_size by done.
  rewrite Himage. simpl. by destruct e.
Qed.

Lemma pipeline_file_timeout cfg env svc file_path evs :
  check_file_size cfg env = Ok tt ->
  process_invoice_image cfg env svc file_path = (evs, Expired) ->
  pipeline cfg env svc file_path
  = (evs, Raise (Exception ("File processing timeout after "
                            +:+ pretty (file_processing_timeout_seconds cfg)
                            +:+ " seconds"))).
Proof.
  intros Hsize Himage. rewrite pipeline_after_size by done. by rewrite Himage.
Qed.

Lemma pipeline_write_error cfg env svc file_path evs data e :
  check_file_size cfg env = Ok tt ->
  process_invoice_image cfg env svc file_path = (evs, Done (Ok data)) ->
  write_json env = Raise e ->
  pipeline cfg env svc file_path = (evs, Raise e).
Proof.
  intros Hsize Himage Hwrite. rewrite pipeline_after_size by done.
  rewrite Himage. simpl. rewrite Hwrite. by rewrite app_nil_r.
Qed.

Lemma pipeline_copy_error cfg env svc file_path evs data e :
  check_file_size cfg env = Ok tt ->
  process_invoice_image cfg env svc file_path = (evs, Done (Ok data)) ->
  write_json env = Ok tt -> copy_file env = Raise e ->
  exists json_path,
    pipeline cfg env svc file_path
    = (evs ++ [JsonWritten json_path data], Raise e).
Proof.
  intros Hsize Himage Hwrite Hcopy. rewrite pipeline_after_size by done.
  rewrite Himage. simpl. rewrite Hwrite, Hcopy. simpl. eauto.
Qed.

Lemma pipeline_unlink_error cfg env svc file_path evs data e :
  check_file_size cfg env = Ok tt ->
  process_invoice_image cfg env svc file_path = (evs, Done (Ok data)) ->
  write_json env = Ok tt -> copy_file env = Ok tt -> unlink_file env = Raise e ->
  exists json_path moved_image_path,
    pipeline cfg env svc file_path
    = (evs ++ [JsonWritten json_path data; FileCopied file_path moved_image_path],
       Raise e).
Proof.
  intros Hsize Himage Hwrite Hcopy Hunlink. rewrite pipeline_after_size by done.
  rewrite Himage. simpl. rewrite Hwrite, Hcopy, Hunlink. simpl. eauto.
Qed.

(** The ways [process_invoice_image] fails: no model, an image that cannot be
    encoded, a model call that raises or runs out of time, an answer that
    cannot be read. *)
Lemma process_invoice_image_errors cfg env svc image_path :
  (llm svc = false ->
   process_invoice_image cfg env svc image_path
   = ([], Done (Raise (Exception "AI model not available"))))
  /\ (forall e, llm svc = true -> encoded_image env = Raise e ->
      process_invoice_image cfg env svc image_path = ([], Done (Raise e)))
  /\ (forall b64 e, llm svc = true -> encoded_image env = Ok b64 ->
      file_timer_expires env = false -> model_call env = Done (Raise e) ->
      e <> AsyncTimeoutError ->
      process_invoice_image cfg env svc image_path
      = ([LLMInvoked image_path], Done (Raise e)))
  /\ (forall b64, llm svc = true -> encoded_image env = Ok b64 ->
      file_timer_expires env = false -> model_call env = Expired ->
      process_invoice_image cfg env svc image_path
      = ([LLMInvoked image_path],
         Done (Raise (Exception ("AI processing timeout after "
                                 +:+ pretty (ai_processing_timeout_seconds cfg)
                                 +:+ " seconds")))))
  /\ (forall b64, llm svc = true -> encoded_image env = Ok b64 ->
      file_timer_expires env = true ->
      process_invoice_image cfg env svc image_path
      = ([LLMInvoked image_path], Expired))
  /\ (forall b64 text, llm svc = true -> encoded_image env = Ok b64 ->
      file_timer_expires env = false -> model_call env = Done (Ok text) ->
      process_invoice_image cfg env svc image_path
      = ([LLMInvoked image_path], Done (parse_response (load_invoice env) text))).
Proof.
  unfold process_invoice_image.
  repeat split; intros; repeat match goal with H : _ = _ |- _ => rewrite H end;
    try done.
  simpl. by destruct e.
Qed.

(** C5.  When a call of [process_single_file] runs the pipeline (no cached
    success under its id, or [force_reprocess]) and any step of the pipeline
    raises, the call returns normally: its result has status [FAILED], the
    text of the exception as [error_message] and a [processing_time]; it is
    the entry of the store under its id, and the failure is counted once. *)
Theorem errors_are_contained (cfg : Settings) (env : Env) (svc : Service)
    (file_path : Path) (force_reprocess : bool) (evs : list event) (e : exn) :
  cached_result svc
    (generate_file_id (path_name file_path) (utcnow_iso env) (uuid4 env))
    force_reprocess = None ->
  pipeline cfg env svc file_path = (evs, Raise e) ->
  exists result svc',
    process_single_file cfg env svc file_path force_reprocess
    = (result, svc', evs)
    /\ status result = FAILED
    /\ error_message result = Some (str_of_exn e)
    /\ processing_time result = Some (elapsed env)
    /\ original_filename result = path_name file_path
    /\ processing_results svc' !! file_id result = Some result
    /\ failed (stats svc') = failed (stats svc) + 1
    /\ total_processed (stats svc') = total_processed (stats svc) + 1
    /\ successful (stats svc') = successful (stats svc).
Proof.
  intros Hcache Hpipe.
  rewrite (process_single_file_failed _ _ _ _ _ _ _ Hcache Hpipe).
  eexists _, _. split; [done |]. simpl.
  repeat split. apply lookup_insert_eq.
Qed.

Lemma errors_are_contained_witness :
  exists result svc',
    process_single_file default_settings (call_on_size 15728640) new_service
      a_jpg false = (result, svc', [])
    /\ status result = FAILED
    /\ error_message result
       = Some (str_of_exn
                 (Exception "File size (15.00MB) exceeds maximum allowed size (10MB)"))
    /\ processing_time result = Some (elapsed (call_on_size 15728640))
    /\ original_filename result = path_name a_jpg
    /\ processing_results svc' !! file_id result = Some result
    /\ failed (stats svc') = failed (stats new_service) + 1
    /\ total_processed (stats svc') = total_processed (stats new_service) + 1
    /\ successful (stats svc') = successful (stats new_service).
Proof.
  apply (errors_are_contained default_settings (call_on_size 15728640)
           new_service a_jpg false []
           (Exception "File size (15.00MB) exceeds maximum allowed size (10MB)")).
  - vm_compute. reflexivity.
  - vm_compute. reflexivity.
Defined.

(** ** The size check *)

Lemma round_half_even_floor (q : Q) :
  Qnum q / Z.pos (Qden q) <= round_half_even q.
Proof.
  unfold round_half_even.
  destruct (2 * (Qnum q mod Z.pos (Qden q)) ?= Z.pos (Qden q));
    [destruct (Z.even _) | |]; lia.
Qed.

Lemma float_of_int_small (n : Z) : n < 2 ^ 53 -> float_of_int n = n.
Proof. intros H. unfold float_of_int. by rewrite (proj2 (Z.ltb_lt _ _) H). Qed.

(** Rounding to 53 bits does not take an integer below [2 ^ 53]. *)
Lemma float_of_int_large (n : Z) : 2 ^ 53 <= n -> 2 ^ 53 <= float_of_int n.
Proof.
  intros H. unfold float_of_int. rewrite (proj2 (Z.ltb_ge _ _) H).
  assert (Hlog : 53 <= Z.log2 n) by (by apply Z.log2_le_pow2; lia).
  set (s := Z.log2 n - 52).
  assert (Hs : 1 <= s) by (unfold s; lia).
  assert (Hpow : 0 < 2 ^ s) by (apply Z.pow_pos_nonneg; lia).
  pose proof (round_half_even_floor (Qmake n (Z.to_pos (2 ^ s)))) as Hfloor.
  simpl in Hfloor. rewrite Z2Pos.id in Hfloor by done.
  assert (Hn : 2 ^ 52 * 2 ^ s <= n).
  { rewrite <- Z.pow_add_r by lia. replace (52 + s) with (Z.log2 n) by (unfold s; lia).
    apply Z.log2_spec. lia. }
  assert (Hq : 2 ^ 52 <= n / 2 ^ s) by (apply Z.div_le_lower_bound; lia).
  assert (H2 : 2 <= 2 ^ s).
  { change 2 with (2 ^ 1) at 1. apply Z.pow_le_mono_r; lia. }
  nia.
Qed.

Lemma get_file_size_mb_le (size limit : Z) :
  Qle_bool (get_file_size_mb (Some size)) (inject_Z limit) = true
  <-> float_of_int size <= limit * 2 ^ 20.
Proof.
  unfold get_file_size_mb. rewrite Qle_bool_iff, Qred_correct.
  unfold Qle. simpl. lia.
Qed.

(** Below the range where floats lose integers, the size in megabytes is
    above the limit exactly when the size in bytes is above it. *)
Lemma size_within_limit (size limit : Z) :
  limit * 2 ^ 20 < 2 ^ 53 ->
  (float_of_int size <= limit * 2 ^ 20 <-> size <= limit * 2 ^ 20).
Proof.
  intros Hlimit. destruct (Z.lt_ge_cases size (2 ^ 53)) as [Hsmall | Hlarge].
  - by rewrite float_of_int_small.
  - pose proof (float_of_int_large size Hlarge). lia.
Qed.

Lemma check_file_size_cases (cfg : Settings) (env : Env) (size : Z) :
  max_file_size_mb cfg * 2 ^ 20 < 2 ^ 53 ->
  st_size env = Some size ->
  (size <= max_file_size_mb cfg * 2 ^ 20 /\ check_file_size cfg env = Ok tt)
  \/ (max_file_size_mb cfg * 2 ^ 20 < size
      /\ check_file_size cfg env
         = Raise (Exception (size_exceeded_message cfg (get_file_size_mb (Some size))))).
Proof.
  intros Hlimit Hsize. unfold check_file_size. rewrite Hsize.
  destruct (Qle_bool _ _) eqn:Hle; simpl.
  - left. split; [| done].
    apply get_file_size_mb_le in Hle. by apply (size_within_limit _ _ Hlimit).
  - right. split; [| done].
    destruct (Z.le_gt_cases size (max_file_size_mb cfg * 2 ^ 20)) as [H | H]; [| lia].
    apply (size_within_limit _ _ Hlimit), get_file_size_mb_le in H.
    congruence.
Qed.

(** C6 as the specification states it does not hold for every limit: with
    a limit of 2^33 megabytes a file one byte over the limit passes the size
    check.  Its size 2^53 + 1 is rounded to 2^53 when it is divided, and the
    quotient is the limit itself. *)
Lemma one_byte_over_a_huge_limit_passes :
  let size := max_file_size_mb huge_limit_settings * 2 ^ 20 + 1 in
  max_file_size_mb huge_limit_settings * 2 ^ 20 < size
  /\ Qeq_bool (get_file_size_mb (Some size))
       (inject_Z (max_file_size_mb huge_limit_settings)) = true
  /\ check_file_size huge_limit_settings (call_on_size size) = Ok tt.
Proof. by vm_compute. Qed.

(** C6, for limits below 2^33 megabytes, where a size in bytes is a float
    without rounding: the size check lets a file pass exactly when its size
    is at most [max_file_size_mb] megabytes and raises the size error exactly
    when it is larger.  A call on a larger file that is not answered from
    the store invokes nothing and returns a [FAILED] result with that error;
    the result is stored under its identifier, and [total_processed] and
    [failed] are one more than before while [successful] is unchanged. *)
Theorem size_boundary (cfg : Settings) (env : Env) (size : Z) :
  max_file_size_mb cfg * 2 ^ 20 < 2 ^ 53 ->
  st_size env = Some size ->
  let size_error :=
    Exception (size_exceeded_message cfg (get_file_size_mb (Some size))) in
  (check_file_size cfg env = Ok tt <-> size <= max_file_size_mb cfg * 2 ^ 20)
  /\ (check_file_size cfg env = Raise size_error
      <-> max_file_size_mb cfg * 2 ^ 20 < size)
  /\ (max_file_size_mb cfg * 2 ^ 20 < size ->
      forall svc file_path force_reprocess,
        cached_result svc
          (generate_file_id (path_name file_path) (utcnow_iso env) (uuid4 env))
          force_reprocess = None ->
        exists result svc',
          process_single_file cfg env svc file_path force_reprocess
          = (result, svc', [])
          /\ status result = FAILED
          /\ error_message result = Some (str_of_exn size_error)
          /\ processing_results svc' !! file_id result = Some result
          /\ total_processed (stats svc') = total_processed (stats svc) + 1
          /\ failed (stats svc') = failed (stats svc) + 1
          /\ successful (stats svc') = successful (stats svc)).
Proof.
  intros Hlimit Hsize size_error.
  destruct (check_file_size_cases cfg env size Hlimit Hsize)
    as [[Hle Hcheck] | [Hgt Hcheck]]; rewrite Hcheck.
  - split; [done |]. split; [split; [done | lia] | lia].
  - split; [split; [done | lia] |]. split; [done |].
    intros _ svc file_path force_reprocess Hcache.
    rewrite (process_single_file_failed _ _ _ _ _ _ _ Hcache
               (pipeline_size_error _ _ _ _ _ Hcheck)).
    eexists _, _. split; [reflexivity |].
    split; [done |]. split; [done |].
    split; [apply lookup_insert_eq | done].
Qed.

Lemma size_boundary_witness :
  check_file_size default_settings (call_on_size 10485760) = Ok tt
  /\ check_file_size default_settings (call_on_size 10485761)
     = Raise (Exception "File size (10.00MB) exceeds maximum allowed size (10MB)")
  /\ exists result svc',
       process_single_file default_settings (call_on_size 10485761) new_service
         a_jpg false = (result, svc', [])
       /\ status result = FAILED
       /\ error_message result
          = Some "File size (10.00MB) exceeds maximum allowed size (10MB)"
       /\ processing_results svc' !! file_id result = Some result
       /\ total_processed (stats svc') = 1
       /\ failed (stats svc') = 1
       /\ successful (stats svc') = 0.
Proof.
  assert (Hlimit : max_file_size_mb default_settings * 2 ^ 20 < 2 ^ 53)
    by reflexivity.
  split; [| split].
  - apply (size_boundary default_settings (call_on_size 10485760) 10485760
             Hlimit eq_refl).
    vm_compute. discriminate.
  - apply (size_boundary default_settings (call_on_size 10485761) 10485761
             Hlimit eq_refl).
    reflexivity.
  - apply (size_boundary default_settings (call_on_size 10485761) 10485761
             Hlimit eq_refl).
    + reflexivity.
    + vm_compute. reflexivity.
Defined.

(** ** Results already in the store *)

(** A call whose identifier is that of a stored success returns that result
    and touches nothing. *)
Lemma process_single_file_cached cfg env svc file_path existing_result :
  processing_results svc
    !! generate_file_id (path_name file_path) (utcnow_iso env) (uuid4 env)
  = Some existing_result ->
  status existing_result = SUCCESS ->
  process_single_file cfg env svc file_path false = (existing_result, svc, []).
Proof.
  intros Hfound Hstatus. unfold process_single_file, cached_result.
  rewrite Hfound. by rewrite decide_True.
Qed.

(** A call whose identifier is not in the store runs the pipeline. *)
Lemma cached_result_fresh svc id force_reprocess :
  processing_results svc !! id = None ->
  cached_result svc id force_reprocess = None.
Proof. intros H. unfold cached_result. rewrite H. by destruct force_reprocess. Qed.

(** C1, on a file name processed twice.  The first call succeeds and its
    result is in the store.  The second call, a minute later and without
    [force_reprocess], computes another identifier, since the time and a
    random number enter it; it finds nothing under it, invokes the model
    again and stores a second result next to the first, where the claim has
    it return the first one. *)
Theorem second_call_misses_the_cache :
  let first := process_single_file default_settings first_call new_service a_jpg false in
  let second := process_single_file default_settings second_call first.1.2 a_jpg false in
  status first.1.1 = SUCCESS
  /\ processing_results first.1.2 !! file_id first.1.1 = Some first.1.1
  /\ file_id first.1.1 = "d6a4b1b16fe171d8"
  /\ file_id second.1.1 = "38c2a24e605eb797"
  /\ processing_results first.1.2 !! file_id second.1.1 = None
  /\ second.1.1 <> first.1.1
  /\ LLMInvoked a_jpg ∈ second.2
  /\ processing_results second.1.2 !! file_id first.1.1 = Some first.1.1
  /\ processing_results second.1.2 !! file_id second.1.1 = Some second.1.1
  /\ successful (stats second.1.2) = 2.
Proof.
  intros first second.
  do 5 (split; [by vm_compute |]).
  split; [| split; [| by vm_compute]].
  - intros Heq. apply (f_equal file_id) in Heq. by vm_compute in Heq.
  - vm_compute. apply list_elem_of_here.
Qed.

(** ** Statistics *)

Lemma get_statistics_average cfg dir svc :
  average_processing_time (get_statistics cfg dir svc).1
  = average_processing_time (stats svc)
  /\ average_processing_time (stats (get_statistics cfg dir svc).2)
     = average_processing_time (stats svc).
Proof. done. Qed.

Lemma process_single_file_average cfg env svc file_path force_reprocess :
  average_processing_time
    (stats (process_single_file cfg env svc file_path force_reprocess).1.2)
  = average_processing_time (stats svc).
Proof.
  unfold process_single_file.
  destruct (cached_result _ _ _); [done |].
  by destruct (pipeline _ _ _ _) as [evs [[data json_path] | e]].
Qed.

Lemma delete_result_average svc id :
  average_processing_time (stats (delete_result svc id).2)
  = average_processing_time (stats svc).
Proof. unfold delete_result. by destruct (_ !! _). Qed.

(** C3, on the store of the repository's [test_get_statistics] and on a
    service that has just processed a file in two seconds.  The mean
    processing time of the successes is 1.5 for the first and 2 for the
    second; [get_statistics] reports 0 for both, the default of the field,
    which no code assigns. *)
Theorem average_processing_time_stays_zero :
  let processed :=
    process_single_file default_settings first_call new_service a_jpg false in
  average_processing_time (get_statistics default_settings [] test_service).1 = 0%Q
  /\ mean_success_time test_service = (3 # 2)%Q
  /\ status processed.1.1 = SUCCESS
  /\ processing_time processed.1.1 = Some 2%Q
  /\ mean_success_time processed.1.2 = 2%Q
  /\ average_processing_time
       (get_statistics default_settings [] processed.1.2).1 = 0%Q.
Proof. intros processed. repeat split; by vm_compute. Qed.

(** ** The sweep and the queue *)

Global Instance path_join_inj (p : Path) : Inj (=) (=) (path_join p).
Proof.
  intros n1 n2 Heq. unfold path_join in Heq. injection Heq as Heq.
  by apply app_inj_tail in Heq as [_ Heq].
Qed.

(** The files of a sweep are the regular files of the listing whose
    lower-cased extension is a supported format. *)
Lemma elem_of_files_to_process cfg dir p :
  p ∈ files_to_process cfg dir
  <-> exists e,
        e ∈ dir /\ entry_is_file e = true
        /\ lstrip_char "." (str_lower (name_suffix (entry_name e)))
             ∈ supported_formats_list cfg
        /\ p = path_join (incoming_path cfg) (entry_name e).
Proof.
  unfold files_to_process. rewrite list_elem_of_omap.
  assert (Hname : forall e,
             path_suffix (path_join (incoming_path cfg) (entry_name e))
             = name_suffix (entry_name e)).
  { intros e. unfold path_suffix, path_name, path_join. simpl.
    by rewrite last_last. }
  split.
  - intros (e & He & Hsel). exists e. split; [done |]. rewrite Hname in Hsel.
    destruct (entry_is_file e); [| done]. simpl in Hsel.
    case_bool_decide; [| done]. by injection Hsel as <-.
  - intros (e & He & Hfile & Hext & ->). exists e. split; [done |].
    rewrite Hname, Hfile. simpl. by rewrite bool_decide_eq_true_2.
Qed.

Lemma files_to_process_cons cfg e dir :
  files_to_process cfg (e :: dir) = files_to_process cfg dir
  \/ files_to_process cfg (e :: dir)
     = path_join (incoming_path cfg) (entry_name e) :: files_to_process cfg dir.
Proof.
  unfold files_to_process. simpl. destruct (_ && _); [by right | by left].
Qed.

Lemma NoDup_files_to_process cfg dir :
  NoDup (entry_name <$> dir) -> NoDup (files_to_process cfg dir).
Proof.
  induction dir as [|e dir IH]; intros Hnd; [constructor |].
  rewrite fmap_cons in Hnd. apply NoDup_cons in Hnd as [Hfresh Hnd].
  destruct (files_to_process_cons cfg e dir) as [-> | ->]; [by apply IH |].
  apply NoDup_cons. split; [| by apply IH].
  rewrite elem_of_files_to_process. intros (e' & He' & _ & _ & Heq).
  apply (inj (path_join _)) in Heq.
  apply Hfresh. rewrite Heq. apply list_elem_of_fmap. by exists e'.
Qed.

(** The first [m] batches of size [n] make up the first [m * n] files. *)
Lemma concat_batches_prefix {A} (n m : nat) (files : list A) :
  concat ((fun i => take n (drop i files)) <$> ((fun k => k * n)%nat <$> seq 0 m))
  = take (m * n) files.
Proof.
  induction m as [|m IH]; [done |].
  rewrite seq_S, !fmap_app, concat_app, IH. simpl. rewrite app_nil_r.
  rewrite take_take_drop. f_equal. lia.
Qed.

Lemma batches_cover {A} (batch_size : Z) (files : list A) :
  0 < batch_size ->
  exists bs,
    batches batch_size files = Ok bs
    /\ concat bs = files
    /\ Forall (fun b => (length b <= Z.to_nat batch_size)%nat) bs.
Proof.
  intros Hpos. unfold batches.
  rewrite (proj2 (Z.eqb_neq _ _)), (proj2 (Z.ltb_ge _ _)) by lia.
  set (n := Z.to_nat batch_size). assert (Hn : (0 < n)%nat) by (unfold n; lia).
  eexists. split; [done |]. split.
  - unfold range_step. rewrite concat_batches_prefix. apply take_ge.
    pose proof (Nat.div_mod_eq (length files + n - 1) n) as Hdiv.
    pose proof (Nat.mod_upper_bound (length files + n - 1) n) as Hmod.
    nia.
  - apply Forall_fmap, Forall_forall. intros i _. simpl.
    rewrite length_take. lia.
Qed.

Lemma sweep_batches_cover cfg dir :
  0 < batch_size cfg ->
  exists bs,
    sweep_batches cfg dir = Ok bs
    /\ concat bs = files_to_process cfg dir
    /\ Forall (fun b => (length b <= Z.to_nat (batch_size cfg))%nat) bs.
Proof.
  intros Hpos. unfold sweep_batches.
  destruct (files_to_process cfg dir) as [|p files] eqn:Hfiles.
  - by exists [].
  - by apply batches_cover.
Qed.

(** C4 as the specification states it does not hold: from a monitor started
    on an intake folder that holds [a.jpg], the queue is filled with the
    existing files, the drain loop starts processing [a.jpg], and the first
    sweep, which lists the folder without looking at what is in flight,
    starts processing [a.jpg] a second time. *)
Lemma same_path_in_flight_twice :
  ~ (forall c,
       reachable default_settings (started [mkEntry "a.jpg" true]) c ->
       enqueued_at_most_once c).
Proof.
  intros Hclaim.
  set (cfg := default_settings).
  set (c0 := started [mkEntry "a.jpg" true]).
  set (c1 := mkCoordinator (intake c0) (queue c0 ++ existing_files cfg (intake c0))
               (in_flight c0) (batches_left c0) (sweeping c0)).
  set (c2 := mkCoordinator (intake c1) [] ((FromQueue, a_jpg) :: in_flight c1)
               (batches_left c1) (sweeping c1)).
  set (c3 := mkCoordinator (intake c2) (queue c2)
               (((fun p => (FromSweep, p)) <$> default [] (head [[a_jpg]]))
                  ++ in_flight c2)
               (tail [[a_jpg]]) true).
  assert (S1 : step cfg c0 c1) by apply step_existing.
  assert (S2 : step cfg c1 c2).
  { apply (step_drain cfg c1 a_jpg []); by vm_compute. }
  assert (S3 : step cfg c2 c3).
  { apply (step_sweep cfg c2 [[a_jpg]]); by vm_compute. }
  assert (Hreach : reachable cfg c0 c3).
  { eapply reach_step; [| exact S3]. eapply reach_step; [| exact S2].
    eapply reach_step; [| exact S1]. apply reach_start. }
  specialize (Hclaim c3 Hreach). vm_compute in Hclaim.
  apply NoDup_cons in Hclaim as [Hfresh _]. apply Hfresh, list_elem_of_here.
Qed.

(** C4, amended.  A sweep starts only while [is_processing] is unset.  With
    a positive batch size it then calls [process_single_file] on exactly the
    regular files of the intake listing whose lower-cased extension is
    supported, each once and in the order of the listing, in batches of at
    most [batch_size] files; the results stored so far play no part in the
    choice. *)
Theorem sweep_dispatches_each_file_once (cfg : Settings) (svc : Service)
    (dir : list DirEntry) :
  0 < batch_size cfg ->
  (is_processing svc = true -> sweep_dispatch cfg svc dir = Ok [])
  /\ (is_processing svc = false ->
      exists bs,
        sweep_dispatch cfg svc dir = Ok bs
        /\ concat bs = files_to_process cfg dir
        /\ Forall (fun b => (length b <= Z.to_nat (batch_size cfg))%nat) bs
        /\ (NoDup (entry_name <$> dir) -> NoDup (concat bs))
        /\ forall p,
             p ∈ concat bs
             <-> exists e,
                   e ∈ dir /\ entry_is_file e = true
                   /\ lstrip_char "." (str_lower (name_suffix (entry_name e)))
                        ∈ supported_formats_list cfg
                   /\ p = path_join (incoming_path cfg) (entry_name e))
  /\ (forall f, sweep_dispatch cfg (set_results f svc) dir
                = sweep_dispatch cfg svc dir).
Proof.
  intros Hpos. split; [| split].
  - intros Hbusy. unfold sweep_dispatch. by rewrite Hbusy.
  - intros Hfree. unfold sweep_dispatch. rewrite Hfree.
    destruct (sweep_batches_cover cfg dir Hpos) as (bs & Hbs & Hconcat & Hlen).
    exists bs. rewrite Hconcat. split; [done |]. split; [done |].
    split; [done |]. split.
    + apply NoDup_files_to_process.
    + apply elem_of_files_to_process.
  - done.
Qed.

Lemma sweep_dispatches_each_file_once_witness :
  exists bs,
    sweep_dispatch default_settings new_service
      [mkEntry "a.jpg" true; mkEntry "notes.txt" true; mkEntry "B.PDF" true;
       mkEntry "archive.png" false] = Ok bs
    /\ concat bs
       = [Path_of "/srv/incoming/a.jpg"; Path_of "/srv/incoming/B.PDF"]
    /\ NoDup (concat bs).
Proof.
  destruct (sweep_dispatches_each_file_once default_settings new_service
              [mkEntry "a.jpg" true; mkEntry "notes.txt" true;
               mkEntry "B.PDF" true; mkEntry "archive.png" false])
    as (_ & Hsweep & _); [reflexivity |].
  destruct (Hsweep eq_refl) as (bs & Hbs & Hconcat & _ & Hnodup & _).
  exists bs. split; [exact Hbs |]. split.
  - rewrite Hconcat. vm_compute. reflexivity.
  - apply Hnodup. apply (bool_decide_unpack _). vm_compute. exact I.
Defined.
